(** * PVLens: the SRLC downloader ([download_srlc_data.py])

    A shallow embedding of the script that reads the FDA catalogue of
    safety-related labelling changes, derives a numeric [drug_id] from
    every row's [Link], downloads each page to [<drug_id>.html] and, in its
    alternate mode, compares the number of directory entries with the
    number of catalogue keys.

    Conventions of the embedding.
    - A Python [str] is a Rocq [string]; every character is a code point
      below 256.
    - A Python [int] is a [Z]; [bytes] is a [list Byte.byte].
    - A Python [dict] is an association list in insertion order, the order
      in which the script iterates over it.
    - Exceptions are the [Raise] results of [result]; effects (HTTP, files,
      console, sleeping) are recorded in an explicit [world].
    - The interpreter runs with its default limit of 4300 digits on the
      conversion between [int] and [str].
    - The output directory exists and can be listed and written: opening
      a file for writing and listing the directory do not raise.  What is
      stated of a run is stated of a run in which they do not. *)

From Stdlib Require Import ZArith QArith Ascii String List Lia.
From stdpp Require Import base tactics option list gmap strings pretty.

Local Open Scope Z_scope.

(** ** Exceptions *)

Inductive exn : Type :=
| IndexError
| ValueError
| KeyError
| ConnectionError.

Inductive result (A : Type) : Type :=
| Ok (a : A)
| Raise (e : exn).
Arguments Ok {A} a.
Arguments Raise {A} e.

Definition result_bind {A B} (r : result A) (k : A → result B) : result B :=
  match r with
  | Ok a => k a
  | Raise e => Raise e
  end.

Declare Scope result_scope.
Delimit Scope result_scope with res.
Notation "x <-? r ;; k" := (result_bind r (λ x, k))
  (at level 100, r at next level, right associativity) : result_scope.

Definition is_Ok {A} (r : result A) : Prop := ∃ a, r = Ok a.
Definition is_Raise {A} (r : result A) : Prop := ∃ e, r = Raise e.

(** ** Builtins on strings *)

Module Py.

(** [s.split(sep)] for a separator of one character: every occurrence
    cuts, empty pieces are kept, and the result is never empty. *)
Fixpoint split (sep : ascii) (s : string) : list string :=
  match s with
  | EmptyString => [EmptyString]
  | String c s' =>
      if decide (c = sep) then EmptyString :: split sep s'
      else match split sep s' with
           | [] => [String c EmptyString]
           | piece :: pieces => String c piece :: pieces
           end
  end.

(** [l[i]] for a non-negative literal index. *)
Definition index {A} (l : list A) (i : nat) : result A :=
  match l !! i with
  | Some x => Ok x
  | None => Raise IndexError
  end.

(** The characters [int()] skips around a number: tab, line feed,
    vertical tab, form feed, carriage return and space, and the two
    white-space code points between 128 and 255, next-line (133) and
    no-break space (160). *)
Definition is_space (c : ascii) : bool :=
  let n := Z.of_N (N_of_ascii c) in
  ((9 <=? n) && (n <=? 13)) || (n =? 32) || (n =? 133) || (n =? 160).

Definition digit_of (c : ascii) : option Z :=
  let n := Z.of_N (N_of_ascii c) in
  if (48 <=? n) && (n <=? 57) then Some (n - 48) else None.

Fixpoint lstrip (s : string) : string :=
  match s with
  | EmptyString => EmptyString
  | String c s' => if is_space c then lstrip s' else s
  end.

(** The digit loop of the conversion in base 10: digits accumulate and are
    counted, one underscore may stand between two digits.  [after_us] says
    that the previous character was an underscore.  The result is the
    value, the number of digits read and the text that follows the
    number. *)
Fixpoint scan_digits (acc : Z) (digits : Z) (after_us : bool) (s : string)
  : option (Z * Z * string) :=
  match s with
  | EmptyString => if after_us then None else Some (acc, digits, EmptyString)
  | String c s' =>
      match digit_of c with
      | Some d => scan_digits (10 * acc + d) (digits + 1) false s'
      | None =>
          if after_us then None
          else if decide (c = "_"%char) then scan_digits acc digits true s'
          else Some (acc, digits, s)
      end
  end.

Definition take_sign (s : string) : Z * string :=
  match s with
  | String "+" s' => (1, s')
  | String "-" s' => (-1, s')
  | _ => (1, s)
  end.

Definition starts_with_digit (s : string) : bool :=
  match s with
  | String c _ => bool_decide (is_Some (digit_of c))
  | EmptyString => false
  end.

(** The interpreter's limit on the number of digits of a decimal text it
    converts: the default of [sys.get_int_max_str_digits()]. *)
Definition int_max_str_digits : Z := 4300.

(** [int(s)] for a [str] argument and the default base 10: white space
    is skipped on both sides, one sign may come first, the digits follow
    (no leading, trailing or doubled underscore) and nothing else may be
    left; more digits than [int_max_str_digits] are refused, leading
    zeros counted, underscores not.  Everything refused raises
    ValueError. *)
Definition int (s : string) : result Z :=
  let '(sign, body) := take_sign (lstrip s) in
  if starts_with_digit body then
    match scan_digits 0 0 false body with
    | Some (v, digits, rest) =>
        if int_max_str_digits <? digits then Raise ValueError
        else match lstrip rest with
             | EmptyString => Ok (sign * v)
             | String _ _ => Raise ValueError
             end
    | None => Raise ValueError
    end
  else Raise ValueError.

(** [str(n)] for an [int]: the decimal digits, a minus sign first when
    the number is negative.  The interpreter refuses to print more than
    [int_max_str_digits] digits; the script prints identifiers that [int]
    returned, which have no more (see [load_catalog_keys_bounded]), and
    counts of rows and of entries, and [str] stands for the conversion on
    such numbers. *)
Definition str (n : Z) : string := pretty n.

(** [len(l)] *)
Definition len {A} (l : list A) : Z := Z.of_nat (length l).

End Py.

(** ** The catalogue *)

(** One row of the CSV export, with the two columns the script reads. *)
Record Row : Type := mkRow {
  Application_Number : string;
  Link : string
}.

(** [drug_id = int(prd_url.split("&")[1].split("=")[1])] *)
Definition extract_drug_id (prd_url : string) : result Z :=
  (seg <-? Py.index (Py.split "&" prd_url) 1 ;;
   val <-? Py.index (Py.split "=" seg) 1 ;;
   Py.int val)%res.

(** A [dict] keyed by [int]: the entries in insertion order.  Assigning to
    a key that is present replaces its value where it stands; a new key
    goes to the end. *)
Module Dict.

Fixpoint set {V} (k : Z) (v : V) (d : list (Z * V)) : list (Z * V) :=
  match d with
  | [] => [(k, v)]
  | (k', v') :: d' =>
      if decide (k' = k) then (k, v) :: d' else (k', v') :: set k v d'
  end.

Fixpoint get {V} (d : list (Z * V)) (k : Z) : option V :=
  match d with
  | [] => None
  | (k', v') :: d' => if decide (k' = k) then Some v' else get d' k
  end.

(** [d[k]] *)
Definition getitem {V} (d : list (Z * V)) (k : Z) : result V :=
  match get d k with
  | Some v => Ok v
  | None => Raise KeyError
  end.

(** [d.keys()] *)
Definition keys {V} (d : list (Z * V)) : list Z := d.*1.

End Dict.

(** The state of the loading loop: [drug_links], [drug_appid_links] and
    [counter]. *)
Record catalog : Type := mkCatalog {
  drug_links : list (Z * string);
  drug_appid_links : list (Z * string);
  counter : Z
}.

Definition empty_catalog : catalog := mkCatalog [] [] 0.

(** The body of [for index, row in labels.iterrows()]. *)
Definition load_row (st : catalog) (row : Row) : result catalog :=
  let app_id := Application_Number row in
  let prd_url := Link row in
  (drug_id <-? extract_drug_id prd_url ;;
   Ok (mkCatalog (Dict.set drug_id prd_url (drug_links st))
                 (Dict.set drug_id app_id (drug_appid_links st))
                 (counter st + 1)))%res.

Fixpoint load_rows (st : catalog) (labels : list Row) : result catalog :=
  match labels with
  | [] => Ok st
  | row :: rest => (st' <-? load_row st row ;; load_rows st' rest)%res
  end.

Definition load_catalog (labels : list Row) : result catalog :=
  load_rows empty_catalog labels.

(** ** The world: remote site, files, console *)

(** A streamed HTTP response: the chunks [iter_content] yields for a chunk
    size, and whether the connection breaks after the last of them. *)
Record response : Type := mkResponse {
  iter_content : Z → list (list Byte.byte);
  stream_fails : bool
}.

Inductive event : Type :=
| EvGet (url : string)
| EvOpen (path : string)
| EvRecv (chunk : list Byte.byte)
| EvWrite (path : string) (chunk : list Byte.byte)
| EvClose (path : string)
| EvListdir (path : string)
| EvSleep (secs : Q)
| EvPrint (line : string).

(** [remote] answers a GET ([None]: the request itself fails), [files]
    maps a path to the contents of the file there, and [trace] is what the
    program has done so far, oldest first.  Operations on files are taken
    to succeed: the only failures of the world are those of the remote
    site. *)
Record world : Type := mkWorld {
  remote : string → option response;
  files : gmap string (list Byte.byte);
  trace : list event
}.

Definition IO (A : Type) : Type := world → result A * world.

Definition ret {A} (a : A) : IO A := λ w, (Ok a, w).

Definition raise {A} (e : exn) : IO A := λ w, (Raise e, w).

Definition bind {A B} (m : IO A) (k : A → IO B) : IO B :=
  λ w, match m w with
       | (Ok a, w') => k a w'
       | (Raise e, w') => (Raise e, w')
       end.

Definition lift {A} (r : result A) : IO A := λ w, (r, w).

(** [cleanup] runs whether or not [m] raised, as on leaving a [with]
    block. *)
Definition finally {A} (m : IO A) (cleanup : IO unit) : IO A :=
  λ w, let '(r, w1) := m w in (r, (cleanup w1).2).

Declare Scope io_scope.
Delimit Scope io_scope with io.
Bind Scope io_scope with IO.
Notation "x <- m ;; k" := (bind m (λ x, k))
  (at level 100, m at next level, right associativity) : io_scope.
Notation "m ;; k" := (bind m (λ _, k))
  (at level 100, right associativity) : io_scope.

Definition emit (e : event) : IO unit :=
  λ w, (Ok tt, mkWorld (remote w) (files w) (trace w ++ [e])).

Definition set_file (path : string) (data : list Byte.byte) : IO unit :=
  λ w, (Ok tt, mkWorld (remote w) (<[path := data]> (files w)) (trace w)).

Definition read_file (path : string) : IO (list Byte.byte) :=
  λ w, (Ok (default [] (files w !! path)), w).

Definition print (line : string) : IO unit := emit (EvPrint line).

Definition sleep (secs : Q) : IO unit := emit (EvSleep secs).

(** [requests.get(url, stream=True)] *)
Definition requests_get (url : string) : IO response :=
  (emit (EvGet url) ;;
   λ w, match remote w url with
        | Some r => (Ok r, w)
        | None => (Raise ConnectionError, w)
        end)%io.

(** [open(path, 'wb')]: the file is created, or emptied when it exists
    (in a directory that can be written). *)
Definition open_wb (path : string) : IO unit :=
  (emit (EvOpen path) ;; set_file path [])%io.

(** [f.write(chunk)] on a file opened for writing: the chunk goes to the
    end. *)
Definition f_write (path : string) (chunk : list Byte.byte) : IO unit :=
  (emit (EvWrite path chunk) ;;
   old <- read_file path ;;
   set_file path (old ++ chunk))%io.

Definition f_close (path : string) : IO unit := emit (EvClose path).

(** The names in directory [dir] (given with its final slash): the first
    path component of everything stored below it, each once. *)
Fixpoint strip_prefix (p s : string) : option string :=
  match p, s with
  | EmptyString, _ => Some s
  | String a p', String b s' =>
      if decide (a = b) then strip_prefix p' s' else None
  | String _ _, EmptyString => None
  end.

Fixpoint first_component (s : string) : string :=
  match s with
  | EmptyString => EmptyString
  | String c s' =>
      if decide (c = "/"%char) then EmptyString
      else String c (first_component s')
  end.

Definition entry_of (dir path : string) : option string :=
  match strip_prefix dir path with
  | Some rest =>
      match first_component rest with
      | EmptyString => None
      | name => Some name
      end
  | None => None
  end.

Definition dir_entries (fs : gmap string (list Byte.byte)) (dir : string)
  : list string :=
  elements (set_omap (D := gset string) (entry_of dir) (dom fs)).

(** [os.listdir(path)], of a directory that exists. *)
Definition os_listdir (dir : string) : IO (list string) :=
  (emit (EvListdir dir) ;; λ w, (Ok (dir_entries (files w) dir), w))%io.

(** ** The script *)

(** The module constants [punc] and [userAgent] are used nowhere in the
    script and have no counterpart here. *)

Definition FDA_SRLC_PATH : string := "../../src/main/resources/fda_srlc/".
Definition FDA_SRLC_HTML_SRC : string := FDA_SRLC_PATH +:+ "html_download/".
Definition LABEL_CHANGES : string :=
  FDA_SRLC_PATH +:+ "label_changes_20251022.csv".

(** [if chunk:] for [bytes] *)
Definition truthy (chunk : list Byte.byte) : bool :=
  match chunk with
  | [] => false
  | _ :: _ => true
  end.

(** [for chunk in r.iter_content(chunk_size=1024): if chunk: f.write(chunk)] *)
Fixpoint write_chunks (f : string) (chunks : list (list Byte.byte)) : IO unit :=
  match chunks with
  | [] => ret tt
  | chunk :: rest =>
      (emit (EvRecv chunk) ;;
       (if truthy chunk then f_write f chunk else ret tt) ;;
       write_chunks f rest)%io
  end.

Definition download_file (url local_filename : string) : IO string :=
  (r <- requests_get url ;;
   open_wb local_filename ;;
   finally
     (write_chunks local_filename (iter_content r 1024) ;;
      if stream_fails r then raise ConnectionError else ret tt)
     (f_close local_filename) ;;
   ret local_filename)%io.

Definition DATA_PATH : string := FDA_SRLC_HTML_SRC.

(** Wait time in seconds to throttle the downloads: the literal [0.2]. *)
Definition WAIT_TIME : Q := 2 # 10.

Definition out_path (drug_id : Z) : string :=
  DATA_PATH +:+ (Py.str drug_id +:+ ".html").

Definition progress_line (drug_id : Z) (prd_url : string) : string :=
  "Saving Product Label Change: " +:+ (Py.str drug_id +:+ (" URL: " +:+ prd_url)).

Definition milestone_line (n : Z) : string := ">> " +:+ Py.str n.

(** [for drug_id in drug_links.keys(): ...], with the running [counter];
    the result is the final [counter]. *)
Fixpoint download_loop (links : list (Z * string)) (ids : list Z) (n : Z)
  : IO Z :=
  match ids with
  | [] => ret n
  | drug_id :: rest =>
      (prd_url <- lift (Dict.getitem links drug_id) ;;
       download_file prd_url (out_path drug_id) ;;
       print (progress_line drug_id prd_url) ;;
       sleep WAIT_TIME ;;
       let n := n + 1 in
       (if n mod 100 =? 0 then print (milestone_line n) else ret tt) ;;
       download_loop links rest n)%io
  end.

(** The branch [if DOWNLOAD_DATA == True]. *)
Definition fetcher (links : list (Z * string)) : IO unit :=
  (all_files <- os_listdir DATA_PATH ;;
   download_loop links (Dict.keys links) 0 ;;
   ret tt)%io.

(** The [else] branch: the data files are only counted. *)
Definition checker (links : list (Z * string)) : IO unit :=
  (all_files <- os_listdir DATA_PATH ;;
   let expected := Py.len (Dict.keys links) in
   let found := Py.len all_files in
   if expected =? found then
     print ("Total files: " +:+ Py.str (Py.len all_files)) ;;
     print "Skippping, data already downloaded!"
   else
     print ("There are some files missing, expected: " +:+
            (Py.str expected +:+ (" Found: " +:+ Py.str found))))%io.

(** The main method, after [labels = pd.read_csv(LABEL_CHANGES)]; the
    constant [DOWNLOAD_DATA] is its first argument. *)
Definition main (DOWNLOAD_DATA : bool) (labels : list Row) : IO unit :=
  (cat <- lift (load_catalog labels) ;;
   print ("Total links: " +:+ Py.str (counter cat)) ;;
   print ("Unique entries: " +:+ Py.str (Py.len (Dict.keys (drug_links cat)))) ;;
   print ("Unique entries: " +:+
          Py.str (Py.len (Dict.keys (drug_appid_links cat)))) ;;
   (if DOWNLOAD_DATA then fetcher (drug_links cat)
    else checker (drug_links cat)) ;;
   print "SRLC downloads complete!")%io.

(** ** Notions of the specification *)

(** [c] occurs in [s]. *)
Fixpoint occurs (c : ascii) (s : string) : bool :=
  match s with
  | EmptyString => false
  | String c' s' => bool_decide (c' = c) || occurs c s'
  end.

(** [segment sep i s p]: cutting [s] at every [sep], the piece number [i]
    (from 0) is [p]. *)
Inductive segment (sep : ascii) : nat → string → string → Prop :=
| segment_only p :
    occurs sep p = false → segment sep 0 p p
| segment_first p rest :
    occurs sep p = false → segment sep 0 (p +:+ String sep rest) p
| segment_later i a rest p :
    occurs sep a = false → segment sep i rest p →
    segment sep (S i) (a +:+ String sep rest) p.

(** White space only. *)
Inductive spaces : string → Prop :=
| spaces_nil : spaces EmptyString
| spaces_cons c s : Py.is_space c = true → spaces s → spaces (String c s).

(** What may follow the first digit of a number: digits, each optionally
    preceded by one underscore.  The list holds the digits' values. *)
Inductive digits_tail : string → list Z → Prop :=
| tail_nil : digits_tail EmptyString []
| tail_digit c d t ds :
    Py.digit_of c = Some d → digits_tail t ds →
    digits_tail (String c t) (d :: ds)
| tail_underscore c d t ds :
    Py.digit_of c = Some d → digits_tail t ds →
    digits_tail (String "_" (String c t)) (d :: ds).

(** The number written by decimal digits, most significant first. *)
Fixpoint decimal_value (ds : list Z) : Z :=
  match ds with
  | [] => 0
  | d :: rest => d * 10 ^ Z.of_nat (length rest) + decimal_value rest
  end.

Inductive sign : Type := NoSign | Plus | Minus.

Definition sign_text (s : sign) : string :=
  match s with
  | NoSign => ""
  | Plus => "+"
  | Minus => "-"
  end.

Definition sign_value (s : sign) : Z :=
  match s with
  | Minus => -1
  | _ => 1
  end.

(** [base10_literal v n]: the text [v] is a base-10 integer and [n] is the
    integer it denotes: optional white space, an optional sign, a digit and
    a [digits_tail], optional white space. *)
Definition base10_literal (v : string) (n : Z) : Prop :=
  ∃ lead sg c d t ds trail,
    v = lead +:+ (sign_text sg +:+ (String c t +:+ trail)) ∧
    spaces lead ∧ spaces trail ∧
    Py.digit_of c = Some d ∧ digits_tail t ds ∧
    n = sign_value sg * decimal_value (d :: ds).

(** [base10_numeral v n k]: as [base10_literal v n], and [k] is the number
    of digits written in [v]. *)
Definition base10_numeral (v : string) (n : Z) (k : nat) : Prop :=
  ∃ lead sg c d t ds trail,
    v = lead +:+ (sign_text sg +:+ (String c t +:+ trail)) ∧
    spaces lead ∧ spaces trail ∧
    Py.digit_of c = Some d ∧ digits_tail t ds ∧
    n = sign_value sg * decimal_value (d :: ds) ∧
    k = S (length ds).

(** A link is malformed when it has no second '&'-segment, when that
    segment has no '=' in it, or when what stands between its first and
    second '=' is not a base-10 integer.  A row is malformed when its
    [Link] is. *)
Definition malformed_link (link : string) : Prop :=
  (∀ seg, ¬ segment "&" 1 link seg) ∨
  (∃ seg, segment "&" 1 link seg ∧ ∀ val, ¬ segment "=" 1 seg val) ∨
  (∃ seg val, segment "&" 1 link seg ∧ segment "=" 1 seg val ∧
              ∀ n, ¬ base10_literal val n).

Definition malformed (row : Row) : Prop := malformed_link (Link row).

(** [decimal s n]: the text [s] is the decimal notation of [n]: a minus
    sign when [n] is negative, then the digits of its absolute value and
    nothing else, the first of them 0 only when it is the only one. *)
Definition decimal (s : string) (n : Z) : Prop :=
  ∃ c d t ds,
    s = (if n <? 0 then "-"%string else ""%string) +:+ String c t ∧
    Py.digit_of c = Some d ∧ digits_tail t ds ∧
    String.length t = length ds ∧
    Z.abs n = decimal_value (d :: ds) ∧
    (d = 0 → ds = []).

(** [names_download it line]: [line] is a progress line for the download
    of [it], an identifier and its URL: it holds the identifier in decimal
    notation and the URL. *)
Definition names_download (it : Z * string) (line : string) : Prop :=
  ∃ s, decimal s it.1 ∧
       line = "Saving Product Label Change: " +:+ (s +:+ (" URL: " +:+ it.2)).

(** [names_count n line]: [line] is the milestone line for [n] completed
    downloads. *)
Definition names_count (n : Z) (line : string) : Prop :=
  ∃ s, decimal s n ∧ line = ">> " +:+ s.

(** [console_of n items lines]: [lines] is what the console shows for the
    downloads of [items] when [n] downloads were completed before them:
    one progress line for each, in order, and right after the progress
    line of a download that makes the count of completed downloads a
    multiple of 100, and only there, the milestone line of that count. *)
Inductive console_of : Z → list (Z * string) → list string → Prop :=
| console_nil n : console_of n [] []
| console_plain n it items line lines :
    (n + 1) mod 100 ≠ 0 →
    names_download it line →
    console_of (n + 1) items lines →
    console_of n (it :: items) (line :: lines)
| console_milestone n it items line mark lines :
    (n + 1) mod 100 = 0 →
    names_download it line → names_count (n + 1) mark →
    console_of (n + 1) items lines →
    console_of n (it :: items) (line :: mark :: lines).

(** ** Notions of the proofs and statements *)

(** [stops s]: a number cannot continue into [s]. *)
Definition stops (s : string) : Prop :=
  match s with
  | EmptyString => True
  | String c _ => Py.digit_of c = None ∧ c ≠ "_"%char
  end.

(** [yields id row]: the identifier extracted from [row] is [id]. *)
Definition yields (id : Z) (row : Row) : Prop :=
  extract_drug_id (Link row) = Ok id.

#[local] Instance exn_eq_dec : EqDecision exn.
Proof. solve_decision. Defined.

#[local] Instance result_eq_dec {A} `{EqDecision A} : EqDecision (result A).
Proof. solve_decision. Defined.

#[local] Instance yields_dec id row : Decision (yields id row).
Proof. unfold yields. apply _. Defined.

Definition same_keys (st : catalog) : Prop :=
  Dict.keys (drug_links st) = Dict.keys (drug_appid_links st).

Definition key_set {V} (d : list (Z * V)) : gset Z := list_to_set (Dict.keys d).

(** ** Reading a trace *)

(** The lines printed, the URLs requested and the paths opened, in order. *)
Definition printed (t : list event) : list string :=
  omap (λ e, match e with EvPrint line => Some line | _ => None end) t.

Definition requested (t : list event) : list string :=
  omap (λ e, match e with EvGet url => Some url | _ => None end) t.

Definition opened (t : list event) : list string :=
  omap (λ e, match e with EvOpen path => Some path | _ => None end) t.

(** The chunks read from the response, in order. *)
Definition received (t : list event) : list (list Byte.byte) :=
  omap (λ e, match e with EvRecv chunk => Some chunk | _ => None end) t.

(** The data written to [path], in order. *)
Definition written (path : string) (t : list event) : list (list Byte.byte) :=
  omap (λ e, match e with
             | EvWrite p chunk => if decide (p = path) then Some chunk else None
             | _ => None
             end) t.

(** What the loop over a response does: every chunk is read, the ones
    that are not empty are written. *)
Definition chunk_events (f : string) (chunks : list (list Byte.byte))
  : list event :=
  chunks ≫= λ chunk,
    EvRecv chunk :: (if truthy chunk then [EvWrite f chunk] else []).

(** The world at the start of a run: nothing has happened yet. *)
Definition boot (site : string → option response)
    (fs : gmap string (list Byte.byte)) : world :=
  mkWorld site fs [].

(** What one completed round of the loop adds to the trace, when [n]
    downloads were completed before it. *)
Definition round_events (n : Z) (drug_id : Z) (prd_url : string)
    (r : response) : list event :=
  [EvGet prd_url; EvOpen (out_path drug_id)] ++
  chunk_events (out_path drug_id) (iter_content r 1024) ++
  [EvClose (out_path drug_id);
   EvPrint (progress_line drug_id prd_url);
   EvSleep WAIT_TIME] ++
  (if (n + 1) mod 100 =? 0 then [EvPrint (milestone_line (n + 1))] else []).

(** What a round that fails adds. *)
Definition failed_events (drug_id : Z) (prd_url : string)
    (r : option response) : list event :=
  match r with
  | None => [EvGet prd_url]
  | Some r =>
      [EvGet prd_url; EvOpen (out_path drug_id)] ++
      chunk_events (out_path drug_id) (iter_content r 1024) ++
      [EvClose (out_path drug_id)]
  end.

(** The console output for the downloads of [items], the first of which
    is download number [n + 1]: a progress line each, and a milestone line
    after each download whose number is a multiple of 100. *)
Definition lines_from (n : Z) (items : list (Z * string)) : list string :=
  concat (imap (λ i it,
            progress_line it.1 it.2 ::
            (if (n + Z.of_nat (S i)) mod 100 =? 0
             then [milestone_line (n + Z.of_nat (S i))] else []))
          items).

(** Every key of the loop is looked up in the mapping it came from. *)
Definition resolved (links its : list (Z * string)) : Prop :=
  Forall (λ it, Dict.get links it.1 = Some it.2) its.

Definition header_lines (cat : catalog) : list string :=
  ["Total links: " +:+ Py.str (counter cat);
   "Unique entries: " +:+ Py.str (Py.len (Dict.keys (drug_links cat)));
   "Unique entries: " +:+ Py.str (Py.len (Dict.keys (drug_appid_links cat)))].

Definition final_line : string := "SRLC downloads complete!".

Definition match_line : string := "Skippping, data already downloaded!".

Definition missing_line (expected found : Z) : string :=
  "There are some files missing, expected: " +:+
  (Py.str expected +:+ (" Found: " +:+ Py.str found)).

(** ** Pacing *)

#[local] Instance Q_eq_dec : EqDecision Q.
Proof. solve_decision. Defined.

(** Where the program stands with respect to the remote site: free to
    send a request, in the middle of a download, or done writing a file
    and not yet rested. *)
Inductive pace : Type := Ready | Fetching | Written.

(** A request is in order only when [Ready]; closing the output file ends
    the writing; only a sleep of [WAIT_TIME] makes [Ready] again. *)
Definition pace_step (s : pace) (e : event) : option pace :=
  match e with
  | EvGet _ => match s with Ready => Some Fetching | _ => None end
  | EvClose _ => Some Written
  | EvSleep secs =>
      match s with
      | Written => if decide (secs = WAIT_TIME) then Some Ready else Some Written
      | _ => Some s
      end
  | _ => Some s
  end.

Fixpoint pace_run (s : pace) (t : list event) : option pace :=
  match t with
  | [] => Some s
  | e :: t' =>
      match pace_step s e with
      | Some s' => pace_run s' t'
      | None => None
      end
  end.

(** ** A scenario *)

(** A small catalogue with a collision, a site that serves its pages, a
    directory holding two files of unrelated names, and a catalogue of a
    hundred rows. *)
Module Demo.
Definition bytes (s : string) : list Byte.byte := list_byte_of_string s.
Definition url42a : string := "http://x/y&id=42&z=1".
Definition url42b : string := "http://x/y&id=42&z=2".
Definition url7 : string := "http://x/y&id=7&z=9".
Definition labels : list Row :=
  [mkRow "A1" url42a; mkRow "A2" url42b; mkRow "A3" url7].
Definition cat : catalog :=
  mkCatalog [(42, url42b); (7, url7)] [(42, "A2"%string); (7, "A3"%string)] 3.
Definition page42 : response :=
  mkResponse (λ _, [bytes "BODY"; []; bytes "42"]) false.
Definition page7 : response := mkResponse (λ _, [bytes "BODY7"]) false.
Definition blank : response := mkResponse (λ _, [[]; []]) false.
Definition site (url : string) : option response :=
  if decide (url = url42b) then Some page42
  else if decide (url = url7) then Some page7
  else if decide (url = "http://x/blank"%string) then Some blank
  else None.
Definition stale : gmap string (list Byte.byte) :=
  {[ out_path 42 := bytes "an older, longer page" ]}.
Definition unrelated : gmap string (list Byte.byte) :=
  {[ DATA_PATH +:+ "notes.txt" := bytes "x";
     DATA_PATH +:+ "old/7.html" := bytes "y" ]}.
Definition hundred : list Row :=
  (λ i : nat, mkRow "A" ("http://x/y&id=" +:+ (Py.str (Z.of_nat i) +:+ "&z=1")))
    <$> seq 1 100.
Definition always (url : string) : option response := Some page7.
(** An identifier of [k] digits, all of them 9, and links that hold one
    of 4300 and one of 4301 digits. *)
Fixpoint nines (k : nat) : string :=
  match k with
  | O => ""
  | S k' => String "9" (nines k')
  end.
Definition longest_link : string := "a&id=" +:+ nines 4300.
Definition long_link : string := "a&id=" +:+ nines 4301.
End Demo.

(** ** Further notions *)

(** [cut_here tail]: a value ends where [tail] begins, at the end of the
    link or at a separator. *)
Definition cut_here (tail : string) : Prop :=
  match tail with
  | EmptyString => True
  | String c _ => c = "&"%char ∨ c = "="%char
  end.

(** The identifiers of the rows that yield one, in the order of the rows. *)
Definition ids_of (labels : list Row) : list Z :=
  omap (λ row, match extract_drug_id (Link row) with
               | Ok id => Some id
               | Raise _ => None
               end) labels.

(** The elements of a list in the order in which they first occur, those
    of [seen] left out. *)
Fixpoint first_seen (seen : gset Z) (l : list Z) : list Z :=
  match l with
  | [] => []
  | x :: l' =>
      if decide (x ∈ seen) then first_seen seen l'
      else x :: first_seen ({[x]} ∪ seen) l'
  end.

(** The durations slept, in order. *)
Definition slept (t : list event) : list Q :=
  omap (λ e, match e with EvSleep secs => Some secs | _ => None end) t.

(** The name under which the page of an identifier is stored. *)
Definition file_name (drug_id : Z) : string := Py.str drug_id +:+ ".html".

(** More of the scenario: a site on which the page of identifier 7 cannot
    be requested, and one whose connection breaks while the page of 42 is
    streamed. *)
Module Outage.
Definition refusing (url : string) : option response :=
  if decide (url = Demo.url42b) then Some Demo.page42 else None.
Definition cut_short : response :=
  mkResponse (λ _, [Demo.bytes "BO"; Demo.bytes "DY"]) true.
Definition breaking (url : string) : option response :=
  if decide (url = Demo.url42b) then Some cut_short
  else if decide (url = Demo.url7) then Some Demo.page7
  else None.
End Outage.

(** * Properties *)

(** ** Characters *)

Lemma digit_not_other c d :
  Py.digit_of c = Some d →
  Py.is_space c = false ∧ c ≠ "_"%char ∧ c ≠ "+"%char ∧ c ≠ "-"%char.
Proof.
  destruct c as [[] [] [] [] [] [] [] []]; vm_compute; intros H;
    try discriminate H; repeat split; discriminate.
Qed.

Lemma space_not_other c :
  Py.is_space c = true →
  Py.digit_of c = None ∧ c ≠ "_"%char ∧ c ≠ "+"%char ∧ c ≠ "-"%char.
Proof.
  destruct c as [[] [] [] [] [] [] [] []]; vm_compute; intros H;
    try discriminate H; repeat split; discriminate.
Qed.

Lemma digit_range c d : Py.digit_of c = Some d → 0 ≤ d ≤ 9.
Proof.
  unfold Py.digit_of. case_match; [|done]. intros [= <-]. lia.
Qed.

(** ** Strings *)

Lemma append_nil_l (b : string) : "" +:+ b = b.
Proof. reflexivity. Qed.

Lemma append_String c (a b : string) : String c a +:+ b = String c (a +:+ b).
Proof. reflexivity. Qed.

Create Rewrite HintDb strapp.
#[local] Hint Rewrite append_nil_l append_String : strapp.

Ltac str_simpl := autorewrite with strapp in *; simpl in *.

Lemma append_assoc (a b c : string) : (a +:+ b) +:+ c = a +:+ (b +:+ c).
Proof. induction a as [|x a IH]; str_simpl; [done|]. by f_equal. Qed.

Lemma append_nil_r (a : string) : a +:+ "" = a.
Proof. induction a as [|x a IH]; str_simpl; [done|]. by f_equal. Qed.

Lemma append_length (a b : string) :
  String.length (a +:+ b) = (String.length a + String.length b)%nat.
Proof. induction a as [|c a IH]; str_simpl; [done|]. by f_equal. Qed.

Lemma append_cancel_r (a b c : string) : a +:+ c = b +:+ c → a = b.
Proof.
  revert b. induction a as [|x a IH]; intros [|y b] H; str_simpl.
  - done.
  - apply (f_equal String.length) in H. simpl in H.
    rewrite append_length in H. lia.
  - apply (f_equal String.length) in H. simpl in H.
    rewrite append_length in H. lia.
  - injection H as -> H. f_equal. by apply IH.
Qed.

Lemma occurs_cons sep c p :
  c ≠ sep → occurs sep p = false → occurs sep (String c p) = false.
Proof. intros Hc Hp. simpl. rewrite Hp. by rewrite bool_decide_eq_false_2. Qed.

Lemma occurs_app c (a b : string) :
  occurs c (a +:+ b) = occurs c a || occurs c b.
Proof.
  induction a as [|x a IH]; str_simpl; [done|]. by rewrite IH, orb_assoc.
Qed.

(** ** Splitting *)

Lemma split_nonempty sep s : Py.split sep s ≠ [].
Proof.
  destruct s as [|c s]; simpl; [done|].
  case_decide; [done|]. by destruct (Py.split sep s).
Qed.

Lemma split_no_sep sep p : occurs sep p = false → Py.split sep p = [p].
Proof.
  induction p as [|c p IH]; simpl; [done|].
  intros [Hc Hp]%orb_false_elim. apply bool_decide_eq_false in Hc.
  rewrite decide_False by done. by rewrite IH.
Qed.

Lemma split_app_sep sep p rest :
  occurs sep p = false →
  Py.split sep (p +:+ String sep rest) = p :: Py.split sep rest.
Proof.
  induction p as [|c p IH]; str_simpl.
  - intros _. by rewrite decide_True.
  - intros [Hc Hp]%orb_false_elim. apply bool_decide_eq_false in Hc.
    rewrite decide_False by done. by rewrite IH.
Qed.

(** The pieces of [Py.split] are the segments of the specification. *)
Lemma split_segment sep i s p :
  Py.split sep s !! i = Some p ↔ segment sep i s p.
Proof.
  split.
  - revert i p. induction s as [|c s IH]; intros i p; simpl.
    + destruct i; [|done]. intros [= <-]. by constructor.
    + case_decide as Hc.
      * subst c. destruct i as [|i]; simpl.
        -- intros [= <-]. by apply (segment_first sep "" s).
        -- intros H%IH. by apply (segment_later sep i "" s p).
      * destruct (Py.split sep s) as [|q qs] eqn:Hs;
          [by destruct (split_nonempty sep s)|].
        destruct i as [|i]; simpl.
        -- intros [= <-]. specialize (IH 0%nat q eq_refl).
           inversion IH as [p' Hp|p' rest Hp|]; subst.
           ++ apply segment_only. by apply occurs_cons.
           ++ apply (segment_first sep (String c q) rest).
              by apply occurs_cons.
        -- intros Hi. specialize (IH (S i) p Hi).
           inversion IH as [| |i' a rest p' Ha Hrest]; subst.
           apply (segment_later sep i (String c a) rest p); [|done].
           by apply occurs_cons.
  - induction 1 as [p Hp|p rest Hp|i a rest p Ha _ IH].
    + by rewrite split_no_sep.
    + by rewrite split_app_sep.
    + by rewrite split_app_sep.
Qed.

(** ** The integer conversion *)

Lemma spaces_stops s : spaces s → stops s.
Proof.
  destruct 1 as [|c s Hc _]; simpl; [done|].
  by destruct (space_not_other c Hc) as (? & ? & _).
Qed.

Lemma lstrip_spaces lead s :
  spaces lead → Py.lstrip (lead +:+ s) = Py.lstrip s.
Proof. induction 1 as [|c l Hc _ IH]; str_simpl; [done|]. by rewrite Hc. Qed.

Lemma lstrip_decompose s : ∃ lead, s = lead +:+ Py.lstrip s ∧ spaces lead.
Proof.
  induction s as [|c s (lead & Hs & Hlead)]; simpl.
  - exists ""%string. split; [done|constructor].
  - destruct (Py.is_space c) eqn:Hc.
    + exists (String c lead). str_simpl. split; [by f_equal|by constructor].
    + exists ""%string. split; [done|constructor].
Qed.

Lemma lstrip_empty s : Py.lstrip s = ""%string ↔ spaces s.
Proof.
  split.
  - induction s as [|c s IH]; simpl; [constructor|].
    destruct (Py.is_space c) eqn:Hc; [|done]. intros ?. constructor; auto.
  - induction 1 as [|c s Hc _ IH]; simpl; [done|]. by rewrite Hc.
Qed.

Lemma decimal_value_cons d ds :
  decimal_value (d :: ds) = d * 10 ^ Z.of_nat (length ds) + decimal_value ds.
Proof. reflexivity. Qed.

Lemma shift_digit acc d (ds : list Z) :
  (10 * acc + d) * 10 ^ Z.of_nat (length ds) + decimal_value ds
  = acc * 10 ^ Z.of_nat (length (d :: ds)) + decimal_value (d :: ds).
Proof.
  rewrite decimal_value_cons. cbn [length].
  rewrite Nat2Z.inj_succ, Z.pow_succ_r by lia. ring.
Qed.

(** What a successful scan has read is a [digits_tail], and it stopped
    where no number can go on; it has counted the digits. *)
Lemma scan_digits_sound s :
  (∀ acc k v k' rest,
     Py.scan_digits acc k false s = Some (v, k', rest) →
     ∃ t ds, s = t +:+ rest ∧ digits_tail t ds ∧ stops rest ∧
             v = acc * 10 ^ Z.of_nat (length ds) + decimal_value ds ∧
             k' = k + Z.of_nat (length ds)) ∧
  (∀ acc k v k' rest,
     Py.scan_digits acc k true s = Some (v, k', rest) →
     ∃ t ds, String "_" s = t +:+ rest ∧ digits_tail t ds ∧ stops rest ∧
             v = acc * 10 ^ Z.of_nat (length ds) + decimal_value ds ∧
             k' = k + Z.of_nat (length ds)).
Proof.
  induction s as [|c s [IHf IHt]]; (split; intros acc k v k' rest; simpl).
  - intros [= <- <- <-]. exists ""%string, []. simpl.
    split; [done|]. split; [constructor|]. split; [done|]. lia.
  - done.
  - destruct (Py.digit_of c) as [d|] eqn:Hd.
    + intros (t & ds & -> & Ht & Hstop & -> & ->)%IHf.
      exists (String c t), (d :: ds). str_simpl.
      split; [done|]. split; [by constructor|]. split; [done|].
      split; [apply shift_digit|lia].
    + case_decide as Hc.
      * subst c. apply IHt.
      * intros [= <- <- <-]. exists ""%string, []. simpl.
        split; [done|]. split; [constructor|]. split; [done|]. lia.
  - destruct (Py.digit_of c) as [d|] eqn:Hd; [|done].
    intros (t & ds & -> & Ht & Hstop & -> & ->)%IHf.
    exists (String "_" (String c t)), (d :: ds). str_simpl.
    split; [done|]. split; [by constructor|]. split; [done|].
    split; [apply shift_digit|lia].
Qed.

(** Conversely the scan reads any [digits_tail] to its end. *)
Lemma scan_digits_complete t ds rest :
  digits_tail t ds → stops rest →
  ∀ acc k, Py.scan_digits acc k false (t +:+ rest)
           = Some (acc * 10 ^ Z.of_nat (length ds) + decimal_value ds,
                   k + Z.of_nat (length ds), rest).
Proof.
  intros Ht Hstop. induction Ht as [|c d t ds Hd _ IH|c d t ds Hd _ IH];
    intros acc k; str_simpl.
  - destruct rest as [|c rest]; simpl; [do 3 f_equal; lia|].
    destruct Hstop as [-> Hc]. rewrite decide_False by done.
    do 3 f_equal; lia.
  - rewrite Hd, IH. do 3 f_equal; [apply shift_digit|lia].
  - rewrite Hd, IH. do 3 f_equal; [apply shift_digit|lia].
Qed.

Lemma take_sign_text sg c d s :
  Py.digit_of c = Some d →
  Py.take_sign (sign_text sg +:+ String c s) = (sign_value sg, String c s).
Proof.
  intros Hd. destruct (digit_not_other c d Hd) as (_ & _ & Hp & Hm).
  destruct sg; str_simpl; [|done..].
  destruct c as [[] [] [] [] [] [] [] []]; try done.
Qed.

Lemma take_sign_inv s k body :
  Py.take_sign s = (k, body) →
  ∃ sg, s = sign_text sg +:+ body ∧ k = sign_value sg.
Proof.
  unfold Py.take_sign. intros H.
  destruct s as [|c s]; [injection H as <- <-; by exists NoSign|].
  destruct c as [[] [] [] [] [] [] [] []]; injection H as <- <-;
    first [by exists NoSign | by exists Plus | by exists Minus].
Qed.

Lemma base10_numeral_literal v n k : base10_numeral v n k → base10_literal v n.
Proof.
  intros (lead & sg & c & d & t & ds & trail & ? & ? & ? & ? & ? & ? & _).
  by exists lead, sg, c, d, t, ds, trail.
Qed.

Lemma base10_literal_numeral v n : base10_literal v n → ∃ k, base10_numeral v n k.
Proof.
  intros (lead & sg & c & d & t & ds & trail & ? & ? & ? & ? & ? & ?).
  exists (S (length ds)). by exists lead, sg, c, d, t, ds, trail.
Qed.

(** What [Py.int] does with a numeral: its value, unless it has more
    digits than the interpreter converts. *)
Lemma int_numeral v n k :
  base10_numeral v n k →
  Py.int v = if Py.int_max_str_digits <? Z.of_nat k then Raise ValueError
             else Ok n.
Proof.
  intros (lead & sg & c & d & t & ds & trail & -> & Hlead & Htrail
          & Hd & Ht & -> & ->).
  unfold Py.int. rewrite lstrip_spaces by done.
  destruct (digit_not_other c d Hd) as (Hsp & _).
  assert (Py.lstrip (sign_text sg +:+ (String c t +:+ trail))
          = sign_text sg +:+ String c (t +:+ trail)) as ->.
  { destruct sg; str_simpl; [by rewrite Hsp|done..]. }
  rewrite (take_sign_text sg c d) by done.
  cbn [Py.starts_with_digit Py.scan_digits].
  rewrite bool_decide_eq_true_2 by by rewrite Hd.
  rewrite Hd.
  rewrite (scan_digits_complete t ds trail) by auto using spaces_stops.
  replace (0 + 1 + Z.of_nat (length ds)) with (Z.of_nat (S (length ds))) by lia.
  destruct (Py.int_max_str_digits <? Z.of_nat (S (length ds))); [done|].
  apply lstrip_empty in Htrail as ->. reflexivity.
Qed.

(** [Py.int] accepts exactly the base-10 literals of the specification
    that have no more digits than the interpreter converts, with the
    value they denote. *)
Lemma int_base10_numeral v n :
  Py.int v = Ok n ↔
  ∃ k, base10_numeral v n k ∧ Z.of_nat k ≤ Py.int_max_str_digits.
Proof.
  split.
  - unfold Py.int, base10_numeral.
    destruct (lstrip_decompose v) as (lead & Hv & Hlead).
    destruct (Py.take_sign (Py.lstrip v)) as [k body] eqn:Hsign.
    apply take_sign_inv in Hsign as (sg & Hsg & ->).
    destruct body as [|c s]; cbn [Py.starts_with_digit Py.scan_digits]; [done|].
    destruct (Py.digit_of c) as [d|] eqn:Hd;
      [|by rewrite bool_decide_eq_false_2 by by intros [??]].
    rewrite bool_decide_eq_true_2 by done.
    destruct (Py.scan_digits (10 * 0 + d) (0 + 1) false s)
      as [[[val cnt] rest]|] eqn:Hscan; [|done].
    destruct (Z.ltb_spec Py.int_max_str_digits cnt) as [|Hcnt]; [done|].
    destruct (Py.lstrip rest) eqn:Hrest; [|done]. intros [= <-].
    apply lstrip_empty in Hrest.
    apply (proj1 (scan_digits_sound s)) in Hscan
      as (t & ds & -> & Ht & _ & -> & ->).
    exists (S (length ds)). split; [|lia].
    exists lead, sg, c, d, t, ds, rest. str_simpl.
    rewrite Hv at 1. rewrite Hsg. repeat split; done.
  - intros (k & Hnum & Hk). rewrite (int_numeral v n k Hnum).
    destruct (Z.ltb_spec Py.int_max_str_digits (Z.of_nat k)); [lia|done].
Qed.

Lemma int_base10_literal v n : Py.int v = Ok n → base10_literal v n.
Proof.
  intros (k & Hnum & _)%int_base10_numeral. by eapply base10_numeral_literal.
Qed.

(** A numeral with more digits than the interpreter converts is refused. *)
Lemma int_too_long v n k :
  base10_numeral v n k → Py.int_max_str_digits < Z.of_nat k →
  Py.int v = Raise ValueError.
Proof.
  intros Hnum Hk. rewrite (int_numeral v n k Hnum).
  destruct (Z.ltb_spec Py.int_max_str_digits (Z.of_nat k)); [done|lia].
Qed.

Lemma digits_tail_length t ds : digits_tail t ds → (length ds ≤ String.length t)%nat.
Proof. induction 1; simpl; lia. Qed.

Lemma base10_numeral_length v n k :
  base10_numeral v n k → (k ≤ String.length v)%nat.
Proof.
  intros (lead & sg & c & d & t & ds & trail & -> & _ & _ & _ & Ht & _ & ->).
  apply digits_tail_length in Ht. rewrite !append_length. simpl. lia.
Qed.

(** A literal no longer than the limit is converted. *)
Lemma int_short_literal v n :
  base10_literal v n → Z.of_nat (String.length v) ≤ Py.int_max_str_digits →
  Py.int v = Ok n.
Proof.
  intros [k Hnum]%base10_literal_numeral Hlen. apply int_base10_numeral.
  exists k. split; [done|]. apply base10_numeral_length in Hnum. lia.
Qed.

Lemma int_value_error v : (∀ n, ¬ base10_literal v n) → Py.int v = Raise ValueError.
Proof.
  intros Hno. destruct (Py.int v) as [n|e] eqn:Hv.
  - by apply int_base10_literal, Hno in Hv.
  - revert Hv. unfold Py.int. repeat case_match; congruence.
Qed.

(** All that [Py.int] raises is ValueError. *)
Lemma int_raises v e : Py.int v = Raise e → e = ValueError.
Proof. unfold Py.int. repeat case_match; congruence. Qed.

(** The digits of a numeral are between 0 and 9, which bounds its value
    by the number of its digits. *)
Lemma digits_tail_range t ds : digits_tail t ds → Forall (λ d, 0 ≤ d ≤ 9) ds.
Proof.
  induction 1 as [|c d t ds Hd%digit_range _ IH|c d t ds Hd%digit_range _ IH];
    by constructor.
Qed.

Lemma decimal_value_bounds ds :
  Forall (λ d, 0 ≤ d ≤ 9) ds →
  0 ≤ decimal_value ds < 10 ^ Z.of_nat (length ds).
Proof.
  induction 1 as [|d ds Hd _ IH]; [simpl; lia|].
  rewrite decimal_value_cons. cbn [length].
  rewrite Nat2Z.inj_succ, Z.pow_succ_r by lia. nia.
Qed.

Lemma base10_numeral_bound v n k :
  base10_numeral v n k → Z.abs n < 10 ^ Z.of_nat k.
Proof.
  intros (lead & sg & c & d & t & ds & trail & _ & _ & _ & Hd & Ht & -> & ->).
  pose proof (decimal_value_bounds (d :: ds)) as H. cbn [length] in H.
  destruct H as [H0 H1].
  { constructor; [by eapply digit_range|by eapply digits_tail_range]. }
  destruct sg; simpl sign_value; lia.
Qed.

(** What [Py.int] returns has no more digits than the interpreter prints. *)
Lemma int_bounded v n :
  Py.int v = Ok n → Z.abs n < 10 ^ Py.int_max_str_digits.
Proof.
  intros (k & Hnum%base10_numeral_bound & Hk)%int_base10_numeral.
  eapply Z.lt_le_trans; [done|]. apply Z.pow_le_mono_r; lia.
Qed.

(** ** Printing and reading back *)

Lemma pretty_N_char_digit (x : N) :
  (x < 10)%N → Py.digit_of (pretty_N_char x) = Some (Z.of_N x).
Proof.
  intros Hx.
  assert (x = 0 ∨ x = 1 ∨ x = 2 ∨ x = 3 ∨ x = 4 ∨ x = 5 ∨ x = 6 ∨ x = 7
          ∨ x = 8 ∨ x = 9)%N as Hcases by lia.
  repeat (destruct Hcases as [->|Hcases]; [reflexivity|]). by subst.
Qed.

(** The digits printed for a positive number, put before a tail, are a
    digit other than 0 and a longer tail, worth the number shifted past
    the tail; no underscore is added. *)
Lemma pretty_N_go_digits (x : N) :
  (0 < x)%N →
  ∀ s ds, digits_tail s ds →
    ∃ c d t ds',
      pretty_N_go x s = String c t ∧ Py.digit_of c = Some d ∧
      digits_tail t ds' ∧
      decimal_value (d :: ds') =
        Z.of_N x * 10 ^ Z.of_nat (length ds) + decimal_value ds ∧
      1 ≤ d ∧
      (String.length s = length ds → String.length t = length ds').
Proof.
  induction (N.lt_wf_0 x) as [x _ IH]. intros Hx s ds Hs.
  rewrite pretty_N_go_step by done.
  assert (x `mod` 10 < 10)%N as Hmod by (apply N.mod_lt; lia).
  pose proof (pretty_N_char_digit _ Hmod) as Hd.
  destruct (decide (x `div` 10 = 0)%N) as [Hdiv|Hdiv].
  - rewrite Hdiv, pretty_N_go_0.
    exists (pretty_N_char (x `mod` 10)), (Z.of_N (x `mod` 10)), s, ds.
    pose proof (N.div_mod x 10 ltac:(lia)) as Hx10.
    split; [done|]. split; [done|]. split; [done|].
    split; [|split; [lia|done]].
    rewrite decimal_value_cons. do 2 f_equal. lia.
  - destruct (IH (x `div` 10)%N) with
      (s := String (pretty_N_char (x `mod` 10)) s)
      (ds := Z.of_N (x `mod` 10) :: ds)
      as (c & d & t & ds' & -> & Hc & Ht & Hval & Hlead & Hlen).
    + apply N.div_lt; lia.
    + by apply N.neq_0_lt_0.
    + by constructor.
    + exists c, d, t, ds'.
      split; [done|]. split; [done|]. split; [done|].
      split; [|split; [done|]].
      * rewrite Hval, decimal_value_cons. cbn [length].
        rewrite Nat2Z.inj_succ, Z.pow_succ_r by lia.
        rewrite (N.div_mod x 10) at 3 by lia. lia.
      * intros Hs'. apply Hlen. simpl. by rewrite Hs'.
Qed.

(** [str] prints the decimal notation. *)
Lemma str_decimal (n : Z) : decimal (Py.str n) n.
Proof.
  unfold decimal, Py.str, pretty, pretty_Z. destruct n as [|p|p].
  - exists "0"%char, 0, ""%string, [].
    split; [done|]. split; [done|]. split; [constructor|]. done.
  - destruct (pretty_N_go_digits (N.pos p) ltac:(lia) "" [] tail_nil)
      as (c & d & t & ds & Hp & Hc & Ht & Hval & Hlead & Hlen).
    exists c, d, t, ds.
    unfold pretty, pretty_positive, pretty, pretty_N.
    rewrite decide_False by done. rewrite Hp, Hval.
    change (Z.pos p <? 0) with false. str_simpl.
    split; [done|]. split; [done|]. split; [done|].
    split; [by apply Hlen|]. split; lia.
  - destruct (pretty_N_go_digits (N.pos p) ltac:(lia) "" [] tail_nil)
      as (c & d & t & ds & Hp & Hc & Ht & Hval & Hlead & Hlen).
    exists c, d, t, ds.
    unfold pretty, pretty_positive, pretty, pretty_N.
    rewrite decide_False by done. rewrite Hp, Hval.
    change (Z.neg p <? 0) with true. str_simpl.
    split; [done|]. split; [done|]. split; [done|].
    split; [by apply Hlen|]. split; lia.
Qed.

(** [str] prints a sign, if any, and plain digits, the first of which is
    0 only when the number is. *)
Lemma str_digits (n : Z) :
  ∃ sg c d t ds,
    Py.str n = sign_text sg +:+ String c t ∧ sg ≠ Plus ∧
    Py.digit_of c = Some d ∧ digits_tail t ds ∧
    n = sign_value sg * decimal_value (d :: ds) ∧
    (ds = [] ∨ 1 ≤ d).
Proof.
  unfold Py.str, pretty, pretty_Z. destruct n as [|p|p].
  - exists NoSign, "0"%char, 0, ""%string, [].
    split; [done|]. split; [done|]. split; [done|]. split; [constructor|].
    split; [done|by left].
  - destruct (pretty_N_go_digits (N.pos p) ltac:(lia) "" [] tail_nil)
      as (c & d & t & ds & Hp & Hc & Ht & Hval & Hlead & _).
    exists NoSign, c, d, t, ds.
    unfold pretty, pretty_positive, pretty, pretty_N.
    rewrite decide_False by done. rewrite Hp, Hval. str_simpl.
    split; [done|]. split; [done|]. split; [done|]. split; [done|].
    split; [lia|by right].
  - destruct (pretty_N_go_digits (N.pos p) ltac:(lia) "" [] tail_nil)
      as (c & d & t & ds & Hp & Hc & Ht & Hval & Hlead & _).
    exists Minus, c, d, t, ds.
    unfold pretty, pretty_positive, pretty, pretty_N.
    rewrite decide_False by done. rewrite Hp, Hval. str_simpl.
    split; [done|]. split; [done|]. split; [done|]. split; [done|].
    split; [lia|by right].
Qed.

(** [str] prints a numeral of the number, with as many digits as the
    number has. *)
Lemma str_numeral (n : Z) :
  ∃ k, base10_numeral (Py.str n) n k ∧ (k = 1%nat ∨ 10 ^ Z.of_nat (k - 1) ≤ Z.abs n).
Proof.
  destruct (str_digits n) as (sg & c & d & t & ds & Hstr & _ & Hc & Ht & Hn & Hlead).
  exists (S (length ds)). split.
  - exists ""%string, sg, c, d, t, ds, ""%string.
    rewrite Hstr. str_simpl. rewrite append_nil_r.
    repeat split; [constructor..|done|done|done].
  - destruct Hlead as [->|Hlead]; [by left|right].
    replace (S (length ds) - 1)%nat with (length ds) by lia.
    pose proof (decimal_value_bounds ds (digits_tail_range t ds Ht)) as Hds.
    rewrite decimal_value_cons in Hn.
    assert (0 < 10 ^ Z.of_nat (length ds)) by (apply Z.pow_pos_nonneg; lia).
    destruct sg; simpl sign_value in Hn; nia.
Qed.

(** What [str] prints, [int] reads back, for a number with no more digits
    than the interpreter converts. *)
Lemma int_str (n : Z) :
  Z.abs n < 10 ^ Py.int_max_str_digits → Py.int (Py.str n) = Ok n.
Proof.
  intros Hn. apply int_base10_numeral.
  destruct (str_numeral n) as (k & Hnum & Hk). exists k. split; [done|].
  unfold Py.int_max_str_digits in *.
  destruct Hk as [->|Hk]; [lia|].
  assert (10 ^ Z.of_nat (k - 1) < 10 ^ 4300) as Hlt by lia.
  apply Z.pow_lt_mono_r_iff in Hlt; lia.
Qed.

Lemma digits_tail_occurs t ds x :
  digits_tail t ds → Py.digit_of x = None → x ≠ "_"%char →
  occurs x t = false.
Proof.
  intros Ht Hx Hus. induction Ht as [|c d t ds Hc _ IH|c d t ds Hc _ IH]; simpl.
  - done.
  - rewrite IH, bool_decide_eq_false_2; [done|]. congruence.
  - rewrite IH, !bool_decide_eq_false_2; [done|congruence..].
Qed.

Lemma str_occurs n x :
  Py.digit_of x = None → x ≠ "_"%char → x ≠ "-"%char →
  occurs x (Py.str n) = false.
Proof.
  intros Hx Hus Hminus.
  destruct (str_digits n) as (sg & c & d & t & ds & -> & Hsg & Hc & Ht & _).
  rewrite occurs_app. simpl. rewrite (digits_tail_occurs t ds) by done.
  rewrite (bool_decide_eq_false_2 (c = x)) by congruence.
  destruct sg; simpl; [done..|]. by rewrite bool_decide_eq_false_2.
Qed.

Lemma out_path_inj id1 id2 : out_path id1 = out_path id2 → id1 = id2.
Proof.
  unfold out_path. intros H%String.app_inj%append_cancel_r.
  by apply (inj pretty) in H.
Qed.

(** ** Extraction of the identifier *)

Lemma extract_drug_id_unfold link :
  extract_drug_id link =
  match Py.split "&" link !! 1%nat with
  | None => Raise IndexError
  | Some seg =>
      match Py.split "=" seg !! 1%nat with
      | None => Raise IndexError
      | Some val => Py.int val
      end
  end.
Proof.
  unfold extract_drug_id, Py.index.
  destruct (Py.split "&" link !! 1%nat) as [seg|]; simpl; [|done].
  by destruct (Py.split "=" seg !! 1%nat).
Qed.

Lemma nines_digits k : digits_tail (Demo.nines k) (replicate k 9).
Proof. induction k; simpl; by constructor. Qed.

Lemma decimal_value_nines k : decimal_value (replicate k 9) = 10 ^ Z.of_nat k - 1.
Proof.
  induction k as [|k IH]; [done|].
  cbn [replicate]. rewrite decimal_value_cons, IH, length_replicate.
  rewrite Nat2Z.inj_succ, Z.pow_succ_r by lia. lia.
Qed.

(** [k] nines are a numeral of [k] digits. *)
Lemma nines_numeral k :
  base10_numeral (Demo.nines (S k)) (10 ^ Z.of_nat (S k) - 1) (S k).
Proof.
  exists ""%string, NoSign, "9"%char, 9, (Demo.nines k), (replicate k 9), ""%string.
  str_simpl. rewrite append_nil_r.
  split; [done|]. split; [constructor|]. split; [constructor|].
  split; [done|]. split; [apply nines_digits|].
  split; [|by rewrite length_replicate].
  rewrite decimal_value_nines, length_replicate.
  rewrite Nat2Z.inj_succ, Z.pow_succ_r by lia. lia.
Qed.

(** C1 does not hold as it is stated: the second '&'-segment of the link
    [a&id=99...9] with 4301 nines holds a base-10 integer after its '=',
    and the extraction raises ValueError instead of returning it, since
    the interpreter converts no text of more than 4300 digits. *)
Lemma extract_drug_id_long_numeral :
  segment "&" 1 Demo.long_link ("id=" +:+ Demo.nines 4301) ∧
  segment "=" 1 ("id=" +:+ Demo.nines 4301) (Demo.nines 4301) ∧
  base10_literal (Demo.nines 4301) (10 ^ 4301 - 1) ∧
  extract_drug_id Demo.long_link = Raise ValueError ∧
  extract_drug_id Demo.long_link ≠ Ok (10 ^ 4301 - 1).
Proof.
  assert (extract_drug_id Demo.long_link = Raise ValueError) as Hraise
    by (vm_compute; reflexivity).
  split; [|split; [|split; [|split]]].
  - apply split_segment. vm_compute. reflexivity.
  - apply split_segment. vm_compute. reflexivity.
  - apply (base10_numeral_literal _ _ 4301).
    change 4301 with (Z.of_nat 4301). apply nines_numeral.
  - exact Hraise.
  - rewrite Hraise. discriminate.
Qed.

(** C1, amended.  When the second '&'-segment of a link holds, between
    its first and second '=', a base-10 integer written with at most 4300
    digits (the default limit of the interpreter on the digits of a text
    it converts), the extracted [drug_id] is that integer; written with
    more digits, it raises (ValueError).  A link without a second
    '&'-segment raises (IndexError), as does one whose second segment has
    no '='; and one whose value after the first '=' of the second segment
    is not a base-10 integer raises too (ValueError). *)
Theorem extract_drug_id_spec (link : string) :
  (∀ seg val n k,
     segment "&" 1 link seg → segment "=" 1 seg val →
     base10_numeral val n k → (k ≤ 4300)%nat →
     extract_drug_id link = Ok n) ∧
  (∀ seg val n k,
     segment "&" 1 link seg → segment "=" 1 seg val →
     base10_numeral val n k → (4300 < k)%nat →
     extract_drug_id link = Raise ValueError) ∧
  ((∀ seg, ¬ segment "&" 1 link seg) →
     extract_drug_id link = Raise IndexError) ∧
  (∀ seg,
     segment "&" 1 link seg → (∀ val, ¬ segment "=" 1 seg val) →
     extract_drug_id link = Raise IndexError) ∧
  (∀ seg val,
     segment "&" 1 link seg → segment "=" 1 seg val →
     (∀ n, ¬ base10_literal val n) →
     extract_drug_id link = Raise ValueError).
Proof.
  rewrite extract_drug_id_unfold.
  split; [|split; [|split; [|split]]].
  - intros seg val n k ->%split_segment ->%split_segment Hn Hk.
    apply int_base10_numeral. exists k. split; [done|].
    unfold Py.int_max_str_digits. lia.
  - intros seg val n k ->%split_segment ->%split_segment Hn Hk.
    apply (int_too_long val n k Hn). unfold Py.int_max_str_digits. lia.
  - intros Hnone. destruct (Py.split "&" link !! 1%nat) as [seg|] eqn:Hseg;
      [|done]. by apply split_segment, Hnone in Hseg.
  - intros seg ->%split_segment Hnone.
    destruct (Py.split "=" seg !! 1%nat) as [val|] eqn:Hval; [|done].
    by apply split_segment, Hnone in Hval.
  - intros seg val ->%split_segment ->%split_segment Hno.
    by apply int_value_error.
Qed.

Lemma extract_drug_id_spec_witness :
  extract_drug_id "http://x/y&id=42&z=1" = Ok 42 ∧
  extract_drug_id Demo.longest_link = Ok (10 ^ 4300 - 1) ∧
  extract_drug_id Demo.long_link = Raise ValueError ∧
  extract_drug_id "http://x/y" = Raise IndexError ∧
  extract_drug_id "http://x/y&id=4x2&z=1" = Raise ValueError.
Proof.
  split; [|split; [|split; [|split]]].
  - apply (proj1 (extract_drug_id_spec _) "id=42"%string "42"%string 42 2%nat).
    + apply split_segment. reflexivity.
    + apply split_segment. reflexivity.
    + exists ""%string, NoSign, "4"%char, 4, "2"%string, [2], ""%string.
      split; [reflexivity|]. split; [constructor|]. split; [constructor|].
      split; [reflexivity|]. split; [repeat constructor|].
      split; reflexivity.
    + lia.
  - apply (proj1 (extract_drug_id_spec _)
             ("id=" +:+ Demo.nines 4300) (Demo.nines 4300) _ 4300%nat).
    + apply split_segment. vm_compute. reflexivity.
    + apply split_segment. vm_compute. reflexivity.
    + change 4300 with (Z.of_nat 4300). apply nines_numeral.
    + lia.
  - apply (proj1 (proj2 (extract_drug_id_spec _))
             ("id=" +:+ Demo.nines 4301) (Demo.nines 4301)
             (10 ^ 4301 - 1) 4301%nat).
    + apply split_segment. vm_compute. reflexivity.
    + apply split_segment. vm_compute. reflexivity.
    + change 4301 with (Z.of_nat 4301). apply nines_numeral.
    + lia.
  - apply (proj1 (proj2 (proj2 (extract_drug_id_spec _)))).
    intros seg Hseg%split_segment. discriminate Hseg.
  - apply (proj2 (proj2 (proj2 (proj2 (extract_drug_id_spec _))))
             "id=4x2"%string "4x2"%string).
    + apply split_segment. reflexivity.
    + apply split_segment. reflexivity.
    + intros n Hn. apply int_short_literal in Hn; [discriminate Hn|].
      unfold Py.int_max_str_digits. simpl. lia.
Defined.

(** On a malformed link the extraction raises. *)
Lemma malformed_link_raises link :
  malformed_link link → is_Raise (extract_drug_id link).
Proof.
  unfold malformed_link. rewrite extract_drug_id_unfold.
  intros [Hnone|[(seg & Hseg & Hnone)|(seg & val & Hseg & Hval & Hno)]].
  - destruct (Py.split "&" link !! 1%nat) as [seg|] eqn:Hseg;
      [|by eexists]. by apply split_segment, Hnone in Hseg.
  - apply split_segment in Hseg as ->.
    destruct (Py.split "=" seg !! 1%nat) as [val|] eqn:Hval; [|by eexists].
    by apply split_segment, Hnone in Hval.
  - apply split_segment in Hseg as ->. apply split_segment in Hval as ->.
    rewrite int_value_error by done. by eexists.
Qed.

(** ** Dictionaries *)

Lemma dict_get_set {V} k v (d : list (Z * V)) k' :
  Dict.get (Dict.set k v d) k' = if decide (k = k') then Some v else Dict.get d k'.
Proof.
  induction d as [|[k0 v0] d IH]; simpl.
  - by repeat case_decide.
  - destruct (decide (k0 = k)) as [->|Hne]; simpl.
    + by repeat case_decide.
    + rewrite IH. repeat case_decide; congruence.
Qed.

Lemma dict_keys_set {V} k v (d : list (Z * V)) :
  Dict.keys (Dict.set k v d) =
  if decide (k ∈ Dict.keys d) then Dict.keys d else Dict.keys d ++ [k].
Proof.
  unfold Dict.keys. induction d as [|[k0 v0] d IH]; csimpl; [done|].
  - destruct (decide (k0 = k)) as [->|Hne]; csimpl.
    + rewrite decide_True; [done|]. left.
    + rewrite IH. destruct (decide (k ∈ d.*1)) as [Hin|Hnin].
      * rewrite decide_True; [done|]. by right.
      * rewrite decide_False; [done|]. intros [?|?]%elem_of_cons; congruence.
Qed.

Lemma dict_keys_NoDup {V} k v (d : list (Z * V)) :
  NoDup (Dict.keys d) → NoDup (Dict.keys (Dict.set k v d)).
Proof.
  intros Hd. rewrite dict_keys_set. case_decide as Hk; [done|].
  apply NoDup_app. split; [done|]. split.
  - intros x Hx ->%list_elem_of_singleton. done.
  - apply NoDup_singleton.
Qed.

Lemma dict_get_None {V} (d : list (Z * V)) k :
  Dict.get d k = None ↔ k ∉ Dict.keys d.
Proof.
  unfold Dict.keys. induction d as [|[k0 v0] d IH]; csimpl.
  - split; [intros _ ?%elem_of_nil|]; done.
  - case_decide as Hk.
    + subst. split; [done|]. intros []. left.
    + rewrite IH, not_elem_of_cons. split; [by split|by intros [_ ?]].
Qed.

Lemma dict_entries_absent {V} (d : list (Z * V)) k :
  k ∉ Dict.keys d → filter (λ e, e.1 = k) d = [].
Proof.
  unfold Dict.keys. induction d as [|[k0 v0] d IH]; csimpl; [done|].
  intros [Hne Hd]%not_elem_of_cons.
  rewrite filter_cons_False by (csimpl; congruence). auto.
Qed.

(** With distinct keys, the entries under a key are the one [Dict.get]
    finds. *)
Lemma dict_entries_get {V} (d : list (Z * V)) k v :
  NoDup (Dict.keys d) → Dict.get d k = Some v →
  filter (λ e, e.1 = k) d = [(k, v)].
Proof.
  unfold Dict.keys. induction d as [|[k0 v0] d IH]; csimpl; [done|].
  intros [Hk0 Hd]%NoDup_cons. case_decide as Hk.
  - intros [= ->]. subst k0. rewrite filter_cons_True by done.
    f_equal. by apply dict_entries_absent.
  - intros Hget. rewrite filter_cons_False by done. auto.
Qed.

Lemma resolved_self (links : list (Z * string)) :
  NoDup (Dict.keys links) → resolved links links.
Proof.
  unfold resolved, Dict.keys. intros Hnd. apply Forall_forall.
  induction links as [|[k v] links IH]; intros it; [by intros ?%elem_of_nil|].
  apply NoDup_cons in Hnd as [Hk Hnd]. intros [->|Hin]%elem_of_cons; simpl.
  - by rewrite decide_True.
  - rewrite decide_False; [by apply IH|].
    intros ->. apply Hk. apply list_elem_of_fmap. by exists it.
Qed.

(** ** Loading the catalogue *)

Lemma load_row_Ok st row id :
  yields id row →
  load_row st row =
  Ok (mkCatalog (Dict.set id (Link row) (drug_links st))
                (Dict.set id (Application_Number row) (drug_appid_links st))
                (counter st + 1)).
Proof. unfold yields, load_row. by intros ->. Qed.

Lemma load_row_inv st row st' :
  load_row st row = Ok st' →
  ∃ id, yields id row ∧
    st' = mkCatalog (Dict.set id (Link row) (drug_links st))
            (Dict.set id (Application_Number row) (drug_appid_links st))
            (counter st + 1).
Proof.
  unfold load_row, yields.
  destruct (extract_drug_id (Link row)) as [id|]; simpl; [|done].
  intros [= <-]. eauto.
Qed.

Lemma load_row_Raise st row : malformed row → is_Raise (load_row st row).
Proof.
  unfold load_row. intros [e ->]%malformed_link_raises. by exists e.
Qed.

Lemma load_rows_app st l1 l2 :
  load_rows st (l1 ++ l2) =
  (st' <-? load_rows st l1 ;; load_rows st' l2)%res.
Proof.
  revert st. induction l1 as [|r l1 IH]; intros st; simpl; [done|].
  destruct (load_row st r) as [st1|]; simpl; [apply IH|done].
Qed.

Lemma load_rows_total st labels :
  Forall (λ r, is_Ok (extract_drug_id (Link r))) labels →
  is_Ok (load_rows st labels).
Proof.
  intros Hall. revert st.
  induction Hall as [|r rest [id Hid] _ IH]; intros st; simpl.
  - by exists st.
  - rewrite (load_row_Ok st r id) by done. apply IH.
Qed.

Lemma load_rows_malformed st labels :
  Exists malformed labels → is_Raise (load_rows st labels).
Proof.
  intros Hex. revert st. induction Hex as [r rest Hr|r rest _ IH]; intros st.
  - simpl. by destruct (load_row_Raise st r Hr) as [e ->]; exists e.
  - simpl. destruct (load_row st r) as [st1|e]; simpl; [apply IH|by exists e].
Qed.

Lemma load_row_same_keys st row st' :
  same_keys st → load_row st row = Ok st' → same_keys st'.
Proof.
  unfold same_keys. intros Hst (id & _ & ->)%load_row_inv. simpl.
  by rewrite !dict_keys_set, Hst.
Qed.

Lemma load_rows_same_keys st labels st' :
  same_keys st → load_rows st labels = Ok st' → same_keys st'.
Proof.
  revert st. induction labels as [|r rest IH]; intros st Hst; simpl.
  - by intros [= <-].
  - destruct (load_row st r) as [st1|] eqn:Hr; simpl; [|done].
    eauto using load_row_same_keys.
Qed.

Lemma load_rows_NoDup st labels st' :
  NoDup (Dict.keys (drug_links st)) →
  NoDup (Dict.keys (drug_appid_links st)) →
  load_rows st labels = Ok st' →
  NoDup (Dict.keys (drug_links st')) ∧ NoDup (Dict.keys (drug_appid_links st')).
Proof.
  revert st. induction labels as [|r rest IH]; intros st H1 H2; simpl.
  - by intros [= <-].
  - destruct (load_row st r) as [st1|] eqn:Hr; simpl; [|done].
    apply load_row_inv in Hr as (id & _ & ->).
    apply IH; simpl; by apply dict_keys_NoDup.
Qed.

(** After the loop, a key holds what the last row that yields it put
    there, or what it held before when no row yields it. *)
Lemma load_rows_get st labels st' id :
  load_rows st labels = Ok st' →
  Dict.get (drug_links st') id =
    match last (filter (yields id) labels) with
    | Some r => Some (Link r)
    | None => Dict.get (drug_links st) id
    end ∧
  Dict.get (drug_appid_links st') id =
    match last (filter (yields id) labels) with
    | Some r => Some (Application_Number r)
    | None => Dict.get (drug_appid_links st) id
    end.
Proof.
  revert st. induction labels as [|r rest IH]; intros st; simpl.
  - by intros [= <-].
  - destruct (load_row st r) as [st1|] eqn:Hr; simpl; [|done].
    apply load_row_inv in Hr as (id' & Hid' & ->). intros Hrest.
    destruct (IH _ Hrest) as [IH1 IH2]. simpl in IH1, IH2.
    rewrite IH1, IH2, !dict_get_set.
    destruct (decide (yields id r)) as [Hy|Hn].
    + rewrite filter_cons_True by done.
      assert (id' = id) as -> by (unfold yields in *; congruence).
      rewrite !decide_True by done. rewrite last_cons.
      by destruct (last (filter (yields id) rest)).
    + rewrite filter_cons_False by done.
      rewrite !decide_False; [done|by intros ->..].
Qed.

Lemma load_catalog_NoDup labels cat :
  load_catalog labels = Ok cat →
  NoDup (Dict.keys (drug_links cat)) ∧ NoDup (Dict.keys (drug_appid_links cat)).
Proof. apply load_rows_NoDup; apply NoDup_nil_2. Qed.

Example demo_load : load_catalog Demo.labels = Ok Demo.cat.
Proof. vm_compute. reflexivity. Qed.

(** C2. When every row of the catalogue yields an identifier the load
    raises nothing, and an identifier that two or more rows yield has
    exactly one entry in each mapping: the URL and the application id of
    the last of those rows. *)
Theorem load_catalog_collision (labels : list Row) :
  Forall (λ r, is_Ok (extract_drug_id (Link r))) labels →
  ∃ cat, load_catalog labels = Ok cat ∧
    ∀ id, (2 ≤ length (filter (yields id) labels))%nat →
      ∃ r, last (filter (yields id) labels) = Some r ∧
        filter (λ e, e.1 = id) (drug_links cat) = [(id, Link r)] ∧
        filter (λ e, e.1 = id) (drug_appid_links cat)
          = [(id, Application_Number r)].
Proof.
  intros Hall. destruct (load_rows_total empty_catalog labels Hall) as [cat Hcat].
  exists cat. split; [done|]. intros id Hid.
  destruct (last (filter (yields id) labels)) as [r|] eqn:Hlast.
  - exists r. split; [done|].
    destruct (load_catalog_NoDup labels cat Hcat) as [Hnd1 Hnd2].
    destruct (load_rows_get _ _ _ id Hcat) as [Hg1 Hg2].
    rewrite Hlast in Hg1, Hg2. split; by apply dict_entries_get.
  - apply last_None in Hlast. rewrite Hlast in Hid. simpl in Hid. lia.
Qed.

Lemma load_catalog_collision_witness :
  ∃ cat,
    load_catalog [mkRow "A1" "http://x/y&id=42&z=1";
                  mkRow "A2" "http://x/y&id=42&z=2";
                  mkRow "A3" "http://x/y&id=7&z=9"] = Ok cat ∧
    filter (λ e, e.1 = 42) (drug_links cat) = [(42, "http://x/y&id=42&z=2"%string)] ∧
    filter (λ e, e.1 = 42) (drug_appid_links cat) = [(42, "A2"%string)].
Proof.
  destruct (load_catalog_collision
              [mkRow "A1" "http://x/y&id=42&z=1";
               mkRow "A2" "http://x/y&id=42&z=2";
               mkRow "A3" "http://x/y&id=7&z=9"]) as (cat & Hcat & Hcol).
  - repeat constructor; eexists; vm_compute; reflexivity.
  - exists cat. split; [exact Hcat|].
    destruct (Hcol 42) as (r & Hr & H1 & H2).
    + vm_compute. lia.
    + vm_compute in Hr. injection Hr as <-. split; assumption.
Defined.

(** C9. After any number of rows has been processed the two mappings have
    the same keys, in the same order and hence as sets; and when the load
    completes, it has completed after every row. *)
Theorem load_catalog_same_keys (labels : list Row) (n : nat) :
  (∀ cat, load_catalog (take n labels) = Ok cat →
     Dict.keys (drug_links cat) = Dict.keys (drug_appid_links cat) ∧
     key_set (drug_links cat) = key_set (drug_appid_links cat)) ∧
  (is_Ok (load_catalog labels) → is_Ok (load_catalog (take n labels))).
Proof.
  split.
  - intros cat Hcat.
    assert (same_keys cat) as Hk.
    { by apply (load_rows_same_keys empty_catalog (take n labels)). }
    split; [done|]. unfold key_set. by rewrite Hk.
  - intros [cat Hcat]. unfold load_catalog in *.
    rewrite <-(take_drop n labels), load_rows_app in Hcat.
    destruct (load_rows empty_catalog (take n labels)) as [st|]; [|done].
    by exists st.
Qed.

Lemma load_catalog_same_keys_witness :
  ∃ cat,
    load_catalog (take 2 [mkRow "A1" "http://x/y&id=42&z=1";
                          mkRow "A3" "http://x/y&id=7&z=9";
                          mkRow "A2" "http://x/y&id=42&z=2"]) = Ok cat ∧
    Dict.keys (drug_links cat) = Dict.keys (drug_appid_links cat) ∧
    key_set (drug_links cat) = key_set (drug_appid_links cat).
Proof.
  eexists. split; [vm_compute; reflexivity|].
  apply (proj1 (load_catalog_same_keys
                  [mkRow "A1" "http://x/y&id=42&z=1";
                   mkRow "A3" "http://x/y&id=7&z=9";
                   mkRow "A2" "http://x/y&id=42&z=2"] 2)).
  vm_compute. reflexivity.
Defined.

(** ** Traces *)

Lemma printed_app t1 t2 : printed (t1 ++ t2) = printed t1 ++ printed t2.
Proof. apply omap_app. Qed.

Lemma requested_app t1 t2 : requested (t1 ++ t2) = requested t1 ++ requested t2.
Proof. apply omap_app. Qed.

Lemma opened_app t1 t2 : opened (t1 ++ t2) = opened t1 ++ opened t2.
Proof. apply omap_app. Qed.

Lemma chunk_events_quiet f chunks :
  printed (chunk_events f chunks) = [] ∧
  requested (chunk_events f chunks) = [] ∧
  opened (chunk_events f chunks) = [].
Proof.
  unfold chunk_events.
  induction chunks as [|c l (IH1 & IH2 & IH3)]; [done|]. csimpl.
  unfold printed, requested, opened in *.
  rewrite !omap_app, IH1, IH2, IH3. by destruct (truthy c).
Qed.

Lemma pace_run_app s t1 t2 :
  pace_run s (t1 ++ t2) =
  match pace_run s t1 with
  | Some s' => pace_run s' t2
  | None => None
  end.
Proof.
  revert s. induction t1 as [|e t1 IH]; intros s; simpl; [done|].
  destruct (pace_step s e); [apply IH|done].
Qed.

(** From [Written], the automaton lets a request through only after a
    sleep of [WAIT_TIME]. *)
Lemma pace_written_request t2 u t3 :
  is_Some (pace_run Written (t2 ++ EvGet u :: t3)) →
  ∃ b c, t2 = b ++ EvSleep WAIT_TIME :: c.
Proof.
  induction t2 as [|e t2 IH]; [intros [? [=]]|].
  destruct e as [| | | | | |secs|]; simpl;
    try (intros (b & c & ->)%IH; by eexists (_ :: b), c).
  - intros [? [=]].
  - case_decide as Hsecs.
    + subst secs. intros _. by exists [], t2.
    + intros (b & c & ->)%IH. by eexists (_ :: b), c.
Qed.

(** From [Fetching], only after the file was closed and that sleep. *)
Lemma pace_fetching_request t2 u t3 :
  is_Some (pace_run Fetching (t2 ++ EvGet u :: t3)) →
  ∃ a p b c, t2 = a ++ EvClose p :: b ++ EvSleep WAIT_TIME :: c.
Proof.
  induction t2 as [|e t2 IH]; [intros [? [=]]|].
  destruct e as [| | | |p| | |]; simpl;
    try (intros (a & q & b & c & ->)%IH; by eexists (_ :: a), q, b, c).
  - intros [? [=]].
  - intros (b & c & ->)%pace_written_request. by exists [], p, b, c.
Qed.

Lemma pace_after_close s t1 p t2 u t3 :
  is_Some (pace_run s (t1 ++ EvClose p :: t2 ++ EvGet u :: t3)) →
  EvSleep WAIT_TIME ∈ t2.
Proof.
  rewrite pace_run_app. destruct (pace_run s t1) as [s1|]; [|intros [? [=]]].
  simpl. intros (b & c & ->)%pace_written_request.
  apply elem_of_app. right. left.
Qed.

Lemma pace_between_requests s t1 u t2 u' t3 :
  is_Some (pace_run s (t1 ++ EvGet u :: t2 ++ EvGet u' :: t3)) →
  ∃ a p b c, t2 = a ++ EvClose p :: b ++ EvSleep WAIT_TIME :: c.
Proof.
  rewrite pace_run_app. destruct (pace_run s t1) as [s1|]; [|intros [? [=]]].
  simpl. destruct s1; [|intros [? [=]]..]. apply pace_fetching_request.
Qed.

Lemma chunk_events_pace s f chunks :
  pace_run s (chunk_events f chunks) = Some s.
Proof.
  unfold chunk_events. induction chunks as [|c l IH]; [done|]. csimpl.
  destruct (truthy c); simpl; by destruct s.
Qed.

(** ** Downloading one file *)

Lemma write_chunks_run f chunks w old :
  files w !! f = Some old →
  write_chunks f chunks w =
  (Ok tt, mkWorld (remote w) (<[f := old ++ concat chunks]> (files w))
                  (trace w ++ chunk_events f chunks)).
Proof.
  revert w old. induction chunks as [|chunk rest IH]; intros w old Hold.
  - simpl. unfold ret, chunk_events. simpl.
    rewrite !app_nil_r, insert_id by done. by destruct w.
  - cbn [write_chunks]. unfold bind at 1, emit.
    destruct chunk as [|b chunk]; cbn [truthy].
    + unfold bind at 1, ret. erewrite IH by done. simpl.
      unfold chunk_events. csimpl. by rewrite <-app_assoc.
    + unfold bind at 1, f_write, bind, emit, read_file, set_file. simpl.
      rewrite Hold. simpl.
      erewrite IH by (simpl; apply lookup_insert_eq). simpl.
      rewrite insert_insert_eq. unfold chunk_events. csimpl.
      by rewrite <-!app_assoc.
Qed.

Lemma download_file_run url f w :
  download_file url f w =
  match remote w url with
  | None =>
      (Raise ConnectionError,
       mkWorld (remote w) (files w) (trace w ++ [EvGet url]))
  | Some r =>
      (if stream_fails r then Raise ConnectionError else Ok f,
       mkWorld (remote w) (<[f := concat (iter_content r 1024)]> (files w))
         (trace w ++ [EvGet url; EvOpen f] ++
          chunk_events f (iter_content r 1024) ++ [EvClose f]))
  end.
Proof.
  unfold download_file, bind at 1, requests_get, bind at 1, emit. simpl.
  destruct (remote w url) as [r|]; [|done].
  unfold bind at 1, open_wb, bind, emit, set_file. simpl.
  unfold finally.
  erewrite write_chunks_run by (simpl; apply lookup_insert_eq). simpl.
  rewrite insert_insert_eq. unfold f_close, emit, raise, ret.
  destruct (stream_fails r); simpl; by rewrite <-!app_assoc.
Qed.

(** C4. When the request is answered, the data [download_file] writes to
    the output file are the chunks of the response, read with chunk size
    1024, that are not empty, in order; the file then holds their
    concatenation, and its length is the sum of their lengths. *)
Theorem download_file_bytes (url f : string) (w : world) (r : response) :
  remote w url = Some r →
  let w' := (download_file url f w).2 in
  let chunks := filter (λ c, c ≠ []) (iter_content r 1024) in
  written f (trace w') = written f (trace w) ++ chunks ∧
  files w' !! f = Some (concat chunks) ∧
  (∀ data, files w' !! f = Some data →
           length data = sum_list (length <$> chunks)).
Proof.
  intros Hr. rewrite download_file_run, Hr. cbn zeta. cbn [snd files trace].
  assert (∀ l : list (list Byte.byte),
            concat (filter (λ c, c ≠ []) l) = concat l) as Hconcat.
  { induction l as [|[|b c] l IH]; [done|..].
    - rewrite filter_cons_False by (by intros ?). done.
    - rewrite filter_cons_True by done. simpl. by rewrite IH. }
  assert (∀ l : list (list Byte.byte),
            written f (chunk_events f l) = filter (λ c, c ≠ []) l) as Hwritten.
  { unfold written, chunk_events.
    induction l as [|[|b c] l IH]; [done|..]; csimpl.
    - rewrite filter_cons_False by (by intros ?). done.
    - rewrite filter_cons_True by done. rewrite decide_True by done.
      by rewrite IH. }
  assert (∀ l : list (list Byte.byte),
            length (concat l) = sum_list (length <$> l)) as Hlen.
  { induction l as [|c l IH]; csimpl; [done|]. by rewrite length_app, IH. }
  repeat split.
  - unfold written in *. rewrite !omap_app, Hwritten. csimpl.
    by rewrite app_nil_r.
  - by rewrite lookup_insert_eq, Hconcat.
  - rewrite lookup_insert_eq, <-Hconcat. intros data [= <-]. apply Hlen.
Qed.

Lemma download_file_bytes_witness :
  files (download_file Demo.url42b "42.html" (boot Demo.site Demo.stale)).2
    !! "42.html"%string
  = Some (concat (filter (λ c, c ≠ []) (iter_content Demo.page42 1024))).
Proof.
  apply (download_file_bytes Demo.url42b "42.html" (boot Demo.site Demo.stale)
           Demo.page42).
  vm_compute. reflexivity.
Defined.

(** C10. [download_file] opens its output file (creating or emptying it)
    right after the request and before it reads any chunk of the response;
    unless the connection breaks it returns [local_filename]; and when all
    chunks of the body are empty the file is there afterwards, empty. *)
Theorem download_file_opens_first (url local_filename : string) (w : world)
    (r : response) :
  remote w url = Some r →
  let res := (download_file url local_filename w).1 in
  let w' := (download_file url local_filename w).2 in
  (∃ evs, trace w' = trace w ++ EvGet url :: EvOpen local_filename :: evs ∧
          received evs = iter_content r 1024) ∧
  (stream_fails r = false → res = Ok local_filename) ∧
  (Forall (λ c, c = []) (iter_content r 1024) →
     files w' !! local_filename = Some []).
Proof.
  intros Hr. rewrite download_file_run, Hr. cbn zeta. cbn [fst snd files trace].
  repeat split.
  - eexists. split; [reflexivity|].
    unfold received, chunk_events. rewrite omap_app. csimpl. rewrite app_nil_r.
    induction (iter_content r 1024) as [|c l IH]; [done|]. csimpl.
    destruct (truthy c); csimpl; by rewrite IH.
  - by intros ->.
  - intros Hempty. rewrite lookup_insert_eq. f_equal.
    induction Hempty as [|c l -> _ IH]; [done|]. done.
Qed.

Lemma download_file_opens_first_witness :
  files (download_file "http://x/blank" (out_path 42)
           (boot Demo.site Demo.stale)).2 !! out_path 42 = Some [].
Proof.
  apply (download_file_opens_first "http://x/blank" (out_path 42)
           (boot Demo.site Demo.stale) Demo.blank).
  - vm_compute. reflexivity.
  - vm_compute. repeat constructor.
Defined.

(** ** The download loop *)

Lemma round_events_printed n id url r :
  printed (round_events n id url r) =
  progress_line id url ::
  (if (n + 1) mod 100 =? 0 then [milestone_line (n + 1)] else []).
Proof.
  unfold round_events. rewrite !printed_app.
  rewrite (proj1 (chunk_events_quiet _ _)).
  by destruct ((n + 1) mod 100 =? 0).
Qed.

Lemma round_events_requested n id url r :
  requested (round_events n id url r) = [url].
Proof.
  unfold round_events. rewrite !requested_app.
  rewrite (proj1 (proj2 (chunk_events_quiet _ _))).
  by destruct ((n + 1) mod 100 =? 0).
Qed.

Lemma round_events_opened n id url r :
  opened (round_events n id url r) = [out_path id].
Proof.
  unfold round_events. rewrite !opened_app.
  rewrite (proj2 (proj2 (chunk_events_quiet _ _))).
  by destruct ((n + 1) mod 100 =? 0).
Qed.

Lemma round_events_pace n id url r :
  pace_run Ready (round_events n id url r) = Some Ready.
Proof.
  unfold round_events. simpl. rewrite pace_run_app, chunk_events_pace. simpl.
  by destruct ((n + 1) mod 100 =? 0).
Qed.

Lemma failed_events_quiet id url r :
  printed (failed_events id url r) = [] ∧
  requested (failed_events id url r) = [url].
Proof.
  destruct r as [r|]; [|done]. unfold failed_events.
  rewrite !printed_app, !requested_app.
  destruct (chunk_events_quiet (out_path id) (iter_content r 1024))
    as (-> & -> & _). done.
Qed.

Lemma failed_events_pace id url r :
  is_Some (pace_run Ready (failed_events id url r)).
Proof.
  destruct r as [r|]; simpl; [|done].
  rewrite pace_run_app, chunk_events_pace. done.
Qed.

Lemma lines_from_cons n it its :
  lines_from n (it :: its) =
  progress_line it.1 it.2 ::
  (if (n + 1) mod 100 =? 0 then [milestone_line (n + 1)] else []) ++
  lines_from (n + 1) its.
Proof.
  unfold lines_from. rewrite imap_cons. cbn [concat].
  replace (n + Z.of_nat 1) with (n + 1) by lia.
  rewrite <-app_comm_cons. do 3 f_equal.
  apply imap_ext. intros i x _. cbn [compose].
  by replace (n + Z.of_nat (S (S i))) with (n + 1 + Z.of_nat (S i)) by lia.
Qed.

(** The lemmas on the loop share the mapping it reads. *)
Section DownloadLoop.

Variable links : list (Z * string).

Lemma download_loop_cons id rest n w url :
  Dict.get links id = Some url →
  download_loop links (id :: rest) n w =
  match remote w url with
  | Some r =>
      if stream_fails r then
        (Raise ConnectionError,
         mkWorld (remote w)
           (<[out_path id := concat (iter_content r 1024)]> (files w))
           (trace w ++ failed_events id url (Some r)))
      else
        download_loop links rest (n + 1)
          (mkWorld (remote w)
             (<[out_path id := concat (iter_content r 1024)]> (files w))
             (trace w ++ round_events n id url r))
  | None =>
      (Raise ConnectionError,
       mkWorld (remote w) (files w) (trace w ++ failed_events id url None))
  end.
Proof.
  intros Hurl. cbn [download_loop]. unfold bind at 1, lift, Dict.getitem.
  rewrite Hurl. unfold bind at 1. rewrite download_file_run.
  destruct (remote w url) as [r|]; [|done].
  destruct (stream_fails r); [done|].
  unfold bind at 1, print, emit. cbn [trace files remote].
  unfold bind at 1, sleep, emit. cbn [trace files remote].
  unfold bind at 1, round_events.
  destruct ((n + 1) mod 100 =? 0); unfold print, emit, ret;
    cbn [trace files remote]; f_equal; f_equal;
    rewrite <- ?app_assoc; simpl; by rewrite ?app_nil_r.
Qed.

(** The loop prints the lines of the downloads it completes, and requests
    the URLs in order, one more than it completes when it fails. *)
Lemma download_loop_printed its n w :
  resolved links its →
  ∃ k : nat,
    let res := (download_loop links its.*1 n w).1 in
    let w' := (download_loop links its.*1 n w).2 in
    (res = Ok (n + Z.of_nat (length its)) ∧ k = length its ∨
     res = Raise ConnectionError ∧ (k < length its)%nat) ∧
    printed (trace w') = printed (trace w) ++ lines_from n (take k its) ∧
    requested (trace w') =
      requested (trace w) ++
      (take (match res with Ok _ => k | Raise _ => S k end) its).*2.
Proof.
  intros Hres. revert n w.
  induction Hres as [|[id url] its Hurl _ IH]; intros n w.
  - exists 0%nat. simpl. unfold ret. simpl. rewrite Z.add_0_r, !app_nil_r.
    split; [by left|done].
  - simpl in Hurl. rewrite fmap_cons. cbn [fst].
    rewrite (download_loop_cons id _ n w url Hurl).
    destruct (remote w url) as [r|];
      [destruct (stream_fails r)|].
    + exists 0%nat. cbn [fst snd trace length].
      destruct (failed_events_quiet id url (Some r)) as [Hp Hq].
      rewrite printed_app, requested_app, Hp, Hq. simpl.
      split; [right; split; [done|lia]|split; reflexivity].
    + destruct (IH (n + 1)
                  (mkWorld (remote w)
                     (<[out_path id := concat (iter_content r 1024)]> (files w))
                     (trace w ++ round_events n id url r)))
        as (k & Hk & Hpr & Hrq).
      exists (S k). cbn zeta in *. cbn [trace] in Hpr, Hrq.
      rewrite Hpr, Hrq, printed_app, requested_app,
        round_events_printed, round_events_requested.
      cbn [take length]. rewrite lines_from_cons, <-!app_assoc. cbn [fst snd].
      split; [|split].
      * destruct Hk as [[-> ->]|[-> ?]]; [left|right]; (split; [|lia]);
          [f_equal; lia|done].
      * done.
      * by destruct (download_loop _ _ _ _).1.
    + exists 0%nat. cbn [fst snd trace length].
      destruct (failed_events_quiet id url None) as [Hp Hq].
      rewrite printed_app, requested_app, Hp, Hq. simpl.
      split; [right; split; [done|lia]|split; reflexivity].
Qed.

Lemma download_loop_files its n w m w' :
  resolved links its → NoDup its.*1 →
  download_loop links its.*1 n w = (Ok m, w') →
  remote w' = remote w ∧
  opened (trace w') = opened (trace w) ++ (out_path <$> its.*1) ∧
  (∀ p, p ∉ out_path <$> its.*1 → files w' !! p = files w !! p) ∧
  (∀ it, it ∈ its →
     ∃ r, remote w it.2 = Some r ∧
          files w' !! out_path it.1 = Some (concat (iter_content r 1024))).
Proof.
  intros Hres. revert n w.
  induction Hres as [|[id url] its Hurl _ IH]; intros n w Hnd.
  - intros [= <- <-]. rewrite app_nil_r. repeat split; try done.
    by intros it ?%elem_of_nil.
  - simpl in Hurl. rewrite fmap_cons in *. cbn [fst] in *.
    apply NoDup_cons in Hnd as [Hid Hnd].
    rewrite (download_loop_cons id _ n w url Hurl).
    destruct (remote w url) as [r|] eqn:Hr; [|done].
    destruct (stream_fails r); [done|].
    intros (Hrem & Hop & Hother & Hthese)%IH; [|done].
    cbn [remote files trace] in *.
    assert (out_path id ∉ out_path <$> its.*1) as Hfresh.
    { intros (id' & ->%out_path_inj & ?)%list_elem_of_fmap. done. }
    split; [done|]. split; [|split].
    + rewrite Hop, opened_app, round_events_opened, fmap_cons.
      by rewrite <-app_assoc.
    + intros p [Hp Hps]%not_elem_of_cons.
      rewrite Hother by done. by rewrite lookup_insert_ne.
    + intros it [->|Hit]%elem_of_cons.
      * exists r. split; [done|]. cbn [fst].
        rewrite Hother by done. by rewrite lookup_insert_eq.
      * by apply Hthese.
Qed.

Lemma download_loop_pace its n w :
  resolved links its →
  pace_run Ready (trace w) = Some Ready →
  is_Some (pace_run Ready (trace (download_loop links its.*1 n w).2)).
Proof.
  intros Hres. revert n w.
  induction Hres as [|[id url] its Hurl _ IH]; intros n w Hw.
  - simpl. by rewrite Hw.
  - simpl in Hurl. rewrite fmap_cons. cbn [fst].
    rewrite (download_loop_cons id _ n w url Hurl).
    destruct (remote w url) as [r|]; [destruct (stream_fails r)|].
    + cbn [snd trace]. rewrite pace_run_app, Hw. apply failed_events_pace.
    + apply IH. cbn [trace]. by rewrite pace_run_app, Hw, round_events_pace.
    + cbn [snd trace]. rewrite pace_run_app, Hw. apply failed_events_pace.
Qed.

End DownloadLoop.

(** ** The main method *)

Lemma main_run b labels cat w :
  load_catalog labels = Ok cat →
  main b labels w =
  let w1 := mkWorld (remote w) (files w)
              (trace w ++ (EvPrint <$> header_lines cat)) in
  match (if b then fetcher (drug_links cat) else checker (drug_links cat)) w1
  with
  | (Ok _, w2) =>
      (Ok tt, mkWorld (remote w2) (files w2) (trace w2 ++ [EvPrint final_line]))
  | (Raise e, w2) => (Raise e, w2)
  end.
Proof.
  intros Hcat. unfold main, bind at 1, lift. rewrite Hcat.
  unfold bind at 1, print, emit. cbn [remote files trace].
  unfold bind at 1. cbn [remote files trace].
  unfold bind at 1. cbn [remote files trace].
  unfold bind at 1. cbn zeta. rewrite <-!app_assoc. cbn [app fmap list_fmap].
  unfold header_lines. csimpl.
  by destruct ((if b then fetcher (drug_links cat)
                else checker (drug_links cat)) _) as [[[]|e] w2].
Qed.

Lemma main_load_error b labels e w :
  load_catalog labels = Raise e → main b labels w = (Raise e, w).
Proof. intros Hcat. unfold main, bind at 1, lift. by rewrite Hcat. Qed.

Lemma fetcher_run links w :
  fetcher links w =
  match download_loop links (Dict.keys links) 0
          (mkWorld (remote w) (files w) (trace w ++ [EvListdir DATA_PATH]))
  with
  | (Ok _, w') => (Ok tt, w')
  | (Raise e, w') => (Raise e, w')
  end.
Proof.
  unfold fetcher, bind at 1, os_listdir, bind at 1, emit.
  cbn [remote files trace]. unfold bind at 1.
  by destruct (download_loop _ _ _ _) as [[m|e] w'].
Qed.

Lemma checker_run links w :
  checker links w =
  let expected := Py.len (Dict.keys links) in
  let found := Py.len (dir_entries (files w) DATA_PATH) in
  (Ok tt,
   mkWorld (remote w) (files w)
     (trace w ++ EvListdir DATA_PATH ::
      (EvPrint <$>
         (if expected =? found
          then ["Total files: " +:+ Py.str found; match_line]
          else [missing_line expected found])))).
Proof.
  unfold checker, bind at 1, os_listdir, bind at 1, emit.
  cbn [remote files trace]. cbn zeta.
  destruct (_ =? _); unfold bind, print, emit; cbn [remote files trace];
    by rewrite <- ?app_assoc.
Qed.

Lemma match_line_only_on_match cat expected found :
  match_line ∈
    header_lines cat ++
    (if expected =? found
     then ["Total files: " +:+ Py.str found; match_line]
     else [missing_line expected found]) ++ [final_line]
  ↔ expected = found.
Proof.
  unfold header_lines, missing_line, match_line, final_line.
  destruct (expected =? found) eqn:Heq.
  - apply Z.eqb_eq in Heq. split; [done|]. intros _.
    rewrite !elem_of_app, !elem_of_cons. right. left. right. by left.
  - apply Z.eqb_neq in Heq. split; [|done].
    rewrite !elem_of_app, !elem_of_cons, !elem_of_nil. str_simpl.
    intros [[H|[H|[H|[]]]]|[[H|[]]|[H|[]]]]; discriminate H.
Qed.

(** ** Properties of a run *)

(** C6. When a row of the catalogue is malformed, the main method raises
    while loading (IndexError or ValueError) and nothing at all has
    happened by then: no request, no file opened or written, no line
    printed, and the files are as they were. *)
Theorem malformed_row_aborts (DOWNLOAD_DATA : bool) (labels : list Row)
    (site : string → option response) (fs : gmap string (list Byte.byte)) :
  Exists malformed labels →
  let res := (main DOWNLOAD_DATA labels (boot site fs)).1 in
  let w' := (main DOWNLOAD_DATA labels (boot site fs)).2 in
  (res = Raise IndexError ∨ res = Raise ValueError) ∧
  trace w' = [] ∧ files w' = fs.
Proof.
  intros Hex. destruct (load_rows_malformed empty_catalog labels Hex) as [e He].
  rewrite (main_load_error _ _ e) by done. cbn. split; [|done].
  clear Hex. revert He. unfold load_catalog. generalize empty_catalog.
  induction labels as [|r rest IH]; intros st; simpl; [done|].
  unfold load_row at 1.
  destruct (extract_drug_id (Link r)) as [id|e'] eqn:Hid; simpl; [apply IH|].
  intros [= <-]. revert Hid. rewrite extract_drug_id_unfold.
  unfold Py.int. repeat case_match; intros [= <-]; auto.
Qed.

Lemma malformed_row_aborts_witness :
  trace (main true [mkRow "A1" Demo.url42a; mkRow "A2" "http://x/y?id=42"]
           (boot Demo.site Demo.stale)).2 = [].
Proof.
  apply (malformed_row_aborts true
           [mkRow "A1" Demo.url42a; mkRow "A2" "http://x/y?id=42"]
           Demo.site Demo.stale).
  apply Exists_cons_tl, Exists_cons_hd. left.
  intros seg Hseg%split_segment. discriminate Hseg.
Defined.

(** C5. A complete Fetcher run opens one file for each key of the
    mapping, at [DATA_PATH] followed by the identifier and [.html], no two
    of them the same and no other; afterwards each of these files holds
    the body fetched for its identifier and nothing of what it held
    before, and every other path is as it was. *)
Theorem fetcher_files (labels : list Row) (site : string → option response)
    (fs : gmap string (list Byte.byte)) (cat : catalog) :
  load_catalog labels = Ok cat →
  (main true labels (boot site fs)).1 = Ok tt →
  let w' := (main true labels (boot site fs)).2 in
  let path := λ drug_id : Z, DATA_PATH +:+ (Py.str drug_id +:+ ".html") in
  opened (trace w') = path <$> Dict.keys (drug_links cat) ∧
  NoDup (opened (trace w')) ∧
  (∀ drug_id url,
     Dict.get (drug_links cat) drug_id = Some url →
     ∃ r, site url = Some r ∧
          files w' !! path drug_id = Some (concat (iter_content r 1024))) ∧
  (∀ p, (∀ drug_id, drug_id ∈ Dict.keys (drug_links cat) → p ≠ path drug_id) →
        files w' !! p = fs !! p).
Proof.
  intros Hcat. rewrite (main_run true labels cat _ Hcat). cbn zeta.
  rewrite fetcher_run. cbn [remote files trace boot app].
  destruct (load_catalog_NoDup labels cat Hcat) as [Hnd _].
  pose proof (resolved_self _ Hnd) as Hres. unfold Dict.keys in *.
  destruct (download_loop _ _ _ _) as [[m|e] w2] eqn:Hloop; [|done].
  intros _. cbn [snd trace files].
  apply download_loop_files in Hloop as (Hrem & Hop & Hother & Hthese);
    [|done..].
  cbn [remote files trace] in *.
  assert (opened (trace w2) = out_path <$> (drug_links cat).*1) as Hopened.
  { rewrite Hop, opened_app. unfold header_lines. simpl. done. }
  split; [|split; [|split]].
  - rewrite opened_app, Hopened. simpl. by rewrite app_nil_r.
  - rewrite opened_app, Hopened. simpl. rewrite app_nil_r.
    apply NoDup_fmap_2; [|done]. intros ??. apply out_path_inj.
  - intros id url Hget.
    assert ((id, url) ∈ drug_links cat) as Hin.
    { clear -Hget. induction (drug_links cat) as [|[k v] l IH]; [done|].
      simpl in Hget. case_decide.
      - injection Hget as <-. subst. left.
      - right. auto. }
    destruct (Hthese _ Hin) as (r & Hr & Hfile). by exists r.
  - intros p Hp. apply Hother.
    intros (id & -> & Hid)%list_elem_of_fmap. by apply (Hp id).
Qed.

Lemma fetcher_files_witness :
  opened (trace (main true Demo.labels (boot Demo.site Demo.stale)).2)
  = (λ drug_id : Z, DATA_PATH +:+ (Py.str drug_id +:+ ".html"))
      <$> Dict.keys (drug_links Demo.cat).
Proof.
  apply (fetcher_files Demo.labels Demo.site Demo.stale Demo.cat).
  - vm_compute. reflexivity.
  - vm_compute. reflexivity.
Defined.

(** C7. In the trace of a run in Fetcher mode, whether it completes or
    not, a sleep of [WAIT_TIME] (0.2 seconds) lies between the closing of
    any output file and any later request; and between two requests the
    file of the first was closed and that sleep followed. *)
Theorem fetcher_throttled (labels : list Row) (site : string → option response)
    (fs : gmap string (list Byte.byte)) :
  let t := trace (main true labels (boot site fs)).2 in
  (WAIT_TIME == 2 # 10)%Q ∧
  (∀ t1 p t2 u t3,
     t = t1 ++ EvClose p :: t2 ++ EvGet u :: t3 → EvSleep WAIT_TIME ∈ t2) ∧
  (∀ t1 u t2 u' t3,
     t = t1 ++ EvGet u :: t2 ++ EvGet u' :: t3 →
     ∃ a p b c, t2 = a ++ EvClose p :: b ++ EvSleep WAIT_TIME :: c).
Proof.
  cbn zeta. split; [reflexivity|].
  assert (is_Some (pace_run Ready (trace (main true labels (boot site fs)).2)))
    as Hpace.
  { destruct (load_catalog labels) as [cat|e] eqn:Hcat.
    - rewrite (main_run true labels cat _ Hcat). cbn zeta. rewrite fetcher_run.
      destruct (load_catalog_NoDup labels cat Hcat) as [Hnd _].
      pose proof (download_loop_pace (drug_links cat) (drug_links cat) 0
                    (mkWorld site fs
                       ((EvPrint <$> header_lines cat) ++ [EvListdir DATA_PATH]))
                    (resolved_self _ Hnd) eq_refl) as Hloop.
      cbn [remote files trace boot app]. unfold Dict.keys.
      destruct (download_loop _ _ _ _) as [[m|e] w2]; cbn [snd trace] in *.
      + rewrite pace_run_app. destruct Hloop as [s ->]. by destruct s.
      + done.
    - by rewrite (main_load_error _ _ e). }
  split.
  - intros t1 p t2 u t3 Ht. rewrite Ht in Hpace.
    by apply pace_after_close in Hpace.
  - intros t1 u t2 u' t3 Ht. rewrite Ht in Hpace.
    by apply pace_between_requests in Hpace.
Qed.

Lemma fetcher_throttled_witness :
  EvSleep WAIT_TIME ∈ [EvPrint (progress_line 42 Demo.url42b); EvSleep WAIT_TIME].
Proof.
  pose (t := trace (main true Demo.labels (boot Demo.site Demo.stale)).2).
  apply (proj1 (proj2 (fetcher_throttled Demo.labels Demo.site Demo.stale))
           (take 11 t) (out_path 42) _ Demo.url7 (drop 15 t)).
  vm_compute. reflexivity.
Defined.

(** The lines the loop prints are the console of its downloads. *)
Lemma lines_from_console n items : console_of n items (lines_from n items).
Proof.
  revert n. induction items as [|it items IH]; intros n; [constructor|].
  rewrite lines_from_cons.
  assert (names_download it (progress_line it.1 it.2)) as Hline.
  { exists (Py.str it.1). split; [apply str_decimal|done]. }
  destruct ((n + 1) mod 100 =? 0) eqn:Hn; cbn [app].
  - apply Z.eqb_eq in Hn. apply console_milestone; [done..| |apply IH].
    exists (Py.str (n + 1)). split; [apply str_decimal|done].
  - apply Z.eqb_neq in Hn. apply console_plain; [done..|apply IH].
Qed.

(** C8. In Fetcher mode the console shows, after the three counts, one
    progress line for each completed download, in order, holding the
    identifier and its URL, and a milestone line right after the progress
    line of each download whose number is a multiple of 100, and nowhere
    else ([console_of]); then the final line when the run completes.  [k]
    is the number of completed downloads, all of them when the run
    completes. *)
Theorem fetcher_progress_lines (labels : list Row)
    (site : string → option response) (fs : gmap string (list Byte.byte))
    (cat : catalog) :
  load_catalog labels = Ok cat →
  let res := (main true labels (boot site fs)).1 in
  let w' := (main true labels (boot site fs)).2 in
  ∃ (k : nat) (lines : list string),
    (k ≤ length (drug_links cat))%nat ∧
    (res = Ok tt → k = length (drug_links cat)) ∧
    requested (trace w') =
      (take (match res with Ok _ => k | Raise _ => S k end)
            (drug_links cat)).*2 ∧
    printed (trace w') =
      header_lines cat ++ lines ++
      (match res with Ok _ => [final_line] | Raise _ => [] end) ∧
    console_of 0 (take k (drug_links cat)) lines.
Proof.
  intros Hcat. rewrite (main_run true labels cat _ Hcat). cbn zeta.
  rewrite fetcher_run. cbn [remote files trace boot app].
  destruct (load_catalog_NoDup labels cat Hcat) as [Hnd _].
  destruct (download_loop_printed (drug_links cat) (drug_links cat) 0
              (mkWorld site fs
                 ((EvPrint <$> header_lines cat) ++ [EvListdir DATA_PATH]))
              (resolved_self _ Hnd)) as (k & Hk & Hpr & Hrq).
  exists k, (lines_from 0 (take k (drug_links cat))).
  cbn zeta in *. unfold Dict.keys.
  destruct (download_loop _ _ _ _) as [[m|e] w2]; cbn [fst snd trace] in *.
  - destruct Hk as [[_ ->]|[? _]]; [|done].
    rewrite printed_app, requested_app, Hpr, Hrq. simpl.
    rewrite !app_nil_r. split; [lia|]. split; [done|]. split; [done|].
    split; [done|]. apply lines_from_console.
  - destruct Hk as [[? _]|[_ Hlt]]; [done|].
    rewrite Hpr, Hrq. simpl. rewrite !app_nil_r.
    split; [lia|]. split; [done|]. split; [done|].
    split; [done|]. apply lines_from_console.
Qed.

Lemma fetcher_progress_lines_witness :
  ∃ (k : nat) (lines : list string),
    (k ≤ 100)%nat ∧
    printed (trace (main true Demo.hundred (boot Demo.always ∅)).2) =
      ["Total links: 100"; "Unique entries: 100"; "Unique entries: 100"]%string
      ++ lines ++ [final_line] ∧
    console_of 0 (take k ((λ r, (Z.of_nat r.1, Link r.2))
                            <$> zip (seq 1 100) Demo.hundred)) lines.
Proof.
  destruct (fetcher_progress_lines Demo.hundred Demo.always ∅
              (mkCatalog
                 ((λ r, (Z.of_nat r.1, Link r.2)) <$> zip (seq 1 100) Demo.hundred)
                 ((λ r, (Z.of_nat r.1, Application_Number r.2))
                    <$> zip (seq 1 100) Demo.hundred) 100))
    as (k & lines & Hk & _ & _ & Hprinted & Hlines).
  - vm_compute. reflexivity.
  - exists k, lines. split; [exact Hk|]. split; [exact Hprinted|exact Hlines].
Defined.

(** C3. In Checker mode the program reports a match exactly when the
    number of entries listed in the output directory equals the number of
    keys of the mapping.  Nothing else about the directory is looked at:
    with the same catalogue, two directories with equally many entries,
    whatever their names, give the same console output.  The run requests
    nothing and leaves the files alone. *)
Theorem checker_counts_only (labels : list Row)
    (site : string → option response) (fs : gmap string (list Byte.byte))
    (cat : catalog) :
  load_catalog labels = Ok cat →
  let w' := (main false labels (boot site fs)).2 in
  (match_line ∈ printed (trace w') ↔
   length (dir_entries fs DATA_PATH) = length (Dict.keys (drug_links cat))) ∧
  (∀ fs2,
     length (dir_entries fs2 DATA_PATH) = length (dir_entries fs DATA_PATH) →
     printed (trace (main false labels (boot site fs2)).2)
     = printed (trace w')) ∧
  requested (trace w') = [] ∧ opened (trace w') = [] ∧ files w' = fs.
Proof.
  intros Hcat. cbn zeta.
  assert (∀ fs0,
    (main false labels (boot site fs0)).2 =
    mkWorld site fs0
      ((EvPrint <$> header_lines cat) ++ EvListdir DATA_PATH ::
       (EvPrint <$>
          (if Py.len (Dict.keys (drug_links cat))
              =? Py.len (dir_entries fs0 DATA_PATH)
           then ["Total files: " +:+ Py.str (Py.len (dir_entries fs0 DATA_PATH));
                 match_line]
           else [missing_line (Py.len (Dict.keys (drug_links cat)))
                   (Py.len (dir_entries fs0 DATA_PATH))]) ++
          [final_line]))) as Hrun.
  { intros fs0. rewrite (main_run false labels cat _ Hcat). cbn zeta.
    rewrite checker_run. cbn [remote files trace boot app snd].
    rewrite fmap_app, <-!app_assoc. done. }
  assert (∀ lines more, printed ((EvPrint <$> lines) ++ more)
                        = lines ++ printed more) as Hlines.
  { intros lines more. rewrite printed_app. f_equal.
    unfold printed. induction lines as [|l ls IH]; csimpl; by f_equal. }
  assert (∀ fs0, printed (trace (main false labels (boot site fs0)).2) =
    header_lines cat ++
    (if Py.len (Dict.keys (drug_links cat)) =? Py.len (dir_entries fs0 DATA_PATH)
     then ["Total files: " +:+ Py.str (Py.len (dir_entries fs0 DATA_PATH));
           match_line]
     else [missing_line (Py.len (Dict.keys (drug_links cat)))
             (Py.len (dir_entries fs0 DATA_PATH))]) ++ [final_line])
    as Hprinted.
  { intros fs0. rewrite Hrun. cbn [trace]. rewrite Hlines.
    change (EvListdir DATA_PATH :: ?t) with ([EvListdir DATA_PATH] ++ t).
    rewrite printed_app. cbn [printed omap app].
    rewrite <-(app_nil_r (EvPrint <$> _)), Hlines. by rewrite app_nil_r. }
  split; [|split; [|split; [|split]]].
  - rewrite Hprinted, match_line_only_on_match. unfold Py.len. lia.
  - intros fs2 Hsame. rewrite !Hprinted. unfold Py.len. by rewrite Hsame.
  - rewrite Hrun. cbn [trace]. unfold header_lines.
    by destruct (_ =? _).
  - rewrite Hrun. cbn [trace]. unfold header_lines.
    by destruct (_ =? _).
  - by rewrite Hrun.
Qed.

Lemma checker_counts_only_witness :
  match_line ∈ printed (trace (main false Demo.labels
                                 (boot Demo.site Demo.unrelated)).2).
Proof.
  apply (proj1 (checker_counts_only Demo.labels Demo.site Demo.unrelated
                  Demo.cat ltac:(vm_compute; reflexivity))).
  vm_compute. reflexivity.
Defined.

(** ** A run from end to end *)

(** The end-to-end scenario: two files, [42.html] and [7.html], with the
    bodies served, and a check of that directory then reports a match. *)
Example demo_fetch_then_check :
  let w' := (main true Demo.labels (boot Demo.site Demo.stale)).2 in
  (main true Demo.labels (boot Demo.site Demo.stale)).1 = Ok tt ∧
  files w' = {[ out_path 42 := Demo.bytes "BODY42";
                out_path 7 := Demo.bytes "BODY7" ]} ∧
  out_path 42 = "../../src/main/resources/fda_srlc/html_download/42.html"%string ∧
  match_line ∈ printed (trace (main false Demo.labels (boot Demo.site (files w'))).2).
Proof.
  cbn zeta. split; [vm_compute; reflexivity|].
  split; [apply map_eq; intros p; vm_compute; reflexivity|].
  split; [vm_compute; reflexivity|].
  vm_compute. do 4 right. left.
Qed.

(** The hundredth download is followed by the only milestone line. *)
Example demo_milestone :
  let lines := printed (trace (main true Demo.hundred (boot Demo.always ∅)).2) in
  lines !! 101%nat = Some (progress_line 99 "http://x/y&id=99&z=1") ∧
  lines !! 102%nat = Some (progress_line 100 "http://x/y&id=100&z=1") ∧
  lines !! 103%nat = Some ">> 100"%string ∧
  lines !! 104%nat = Some final_line ∧
  length lines = 105%nat.
Proof. vm_compute. repeat split. Qed.

(** * Further properties *)

(** ** More on the extraction *)

(** A text is cut at the first occurrence of a character. *)
Lemma first_cut sep (s : string) :
  ∃ h, occurs sep h = false ∧ (s = h ∨ ∃ r, s = h +:+ String sep r).
Proof.
  induction s as [|c s (h & Hh & Hs)].
  - exists ""%string. split; [done|by left].
  - destruct (decide (c = sep)) as [->|Hc].
    + exists ""%string. split; [done|]. right. by exists s.
    + exists (String c h). split; [by apply occurs_cons|].
      destruct Hs as [->|[r ->]]; [by left|right; by exists r].
Qed.

Lemma append_cons_assoc (a : string) c (b d : string) :
  (a +:+ String c b) +:+ d = a +:+ String c (b +:+ d).
Proof. by rewrite append_assoc, append_String. Qed.

Lemma split_value key val tail :
  occurs "=" key = false → occurs "=" val = false →
  (tail = ""%string ∨ ∃ r, tail = String "=" r) →
  Py.split "=" (key +:+ String "=" (val +:+ tail)) !! 1%nat = Some val.
Proof.
  intros Hkey Hval Htail. rewrite split_app_sep by done.
  cbn [lookup list_lookup].
  destruct Htail as [->|[r ->]].
  - by rewrite append_nil_r, split_no_sep.
  - by rewrite split_app_sep.
Qed.

(** The value that is converted stands between the first '=' of the
    second '&'-segment and the next '&' or '=', or the end of the link. *)
Lemma extract_drug_id_cut (pre key val tail : string) :
  occurs "&" pre = false →
  occurs "&" key = false → occurs "=" key = false →
  occurs "&" val = false → occurs "=" val = false →
  cut_here tail →
  extract_drug_id (pre +:+ String "&" (key +:+ String "=" (val +:+ tail)))
  = Py.int val.
Proof.
  intros Hpre Hk1 Hk2 Hv1 Hv2 Htail. rewrite extract_drug_id_unfold.
  rewrite split_app_sep by done. cbn [lookup list_lookup].
  assert (∀ more, occurs "&" more = false →
            occurs "&" (key +:+ String "=" (val +:+ more)) = false) as Hseg.
  { intros more Hmore. rewrite occurs_app. cbn [occurs].
    by rewrite occurs_app, Hk1, Hv1, Hmore. }
  destruct tail as [|c tail].
  - rewrite split_no_sep by (by apply Hseg). cbn [lookup list_lookup].
    by rewrite split_value by auto.
  - destruct Htail as [->| ->].
    + replace (key +:+ String "=" (val +:+ String "&" tail))
        with ((key +:+ String "=" val) +:+ String "&" tail)
        by (by rewrite append_cons_assoc).
      rewrite split_app_sep.
      * cbn [lookup list_lookup].
        rewrite <-(append_nil_r val) at 1. by rewrite split_value by auto.
      * rewrite <-(append_nil_r val). by apply Hseg.
    + destruct (first_cut "&" tail) as (h & Hh & [->|[r ->]]).
      * rewrite split_no_sep; cbn [lookup list_lookup].
        -- rewrite split_value; eauto.
        -- apply Hseg. cbn [occurs]. by rewrite Hh.
      * replace (key +:+ String "=" (val +:+ String "=" (h +:+ String "&" r)))
          with ((key +:+ String "=" (val +:+ String "=" h)) +:+ String "&" r)
          by (by rewrite !append_cons_assoc).
        rewrite split_app_sep; cbn [lookup list_lookup].
        -- rewrite split_value; eauto.
        -- apply Hseg. cbn [occurs]. by rewrite Hh.
Qed.

(** X2. The extraction is positional.  Whatever comes before the first
    '&', whatever the name before the '=' and whatever follows the value,
    the identifier is what [int] makes of the text between the first '='
    of the second '&'-segment and the next '&' or '='. *)
Theorem extract_drug_id_positional (pre key val tail : string) :
  occurs "&" pre = false →
  occurs "&" key = false → occurs "=" key = false →
  occurs "&" val = false → occurs "=" val = false →
  cut_here tail →
  extract_drug_id (pre +:+ String "&" (key +:+ String "=" (val +:+ tail)))
  = Py.int val.
Proof.
  apply extract_drug_id_cut.
Qed.

Lemma extract_drug_id_positional_witness :
  extract_drug_id "http://x/y?a=1&drug=0042=7&id=9" = Ok 42.
Proof.
  apply (extract_drug_id_positional "http://x/y?a=1" "drug" "0042" "=7&id=9");
    try reflexivity.
  by right.
Defined.

(** X1. A link [...&key=<N>], the link ending there or going on with
    '&' or '=', yields the number [N] when [N] is what [str] prints for a
    number of at most 4300 digits. *)
Corollary extract_drug_id_of_str (pre key : string) (n : Z) (tail : string) :
  occurs "&" pre = false → occurs "&" key = false → occurs "=" key = false →
  cut_here tail → Z.abs n < 10 ^ 4300 →
  extract_drug_id (pre +:+ String "&" (key +:+ String "=" (Py.str n +:+ tail)))
  = Ok n.
Proof.
  intros Hpre Hkey1 Hkey2 Htail Hn.
  rewrite extract_drug_id_cut by (done || by apply str_occurs).
  by apply int_str.
Qed.

Lemma extract_drug_id_of_str_witness :
  extract_drug_id "http://x/y&id=2891" = Ok 2891 ∧
  extract_drug_id "http://x/y&id=-7&z=1" = Ok (-7).
Proof.
  split.
  - apply (extract_drug_id_of_str "http://x/y" "id" 2891 "");
      [reflexivity..|exact I|by vm_compute].
  - apply (extract_drug_id_of_str "http://x/y" "id" (-7) "&z=1");
      [reflexivity..|by left|by vm_compute].
Defined.

(** ** More on loading *)




Lemma ids_of_cons_yields id row rest :
  yields id row → ids_of (row :: rest) = id :: ids_of rest.
Proof. unfold yields, ids_of. simpl. by intros ->. Qed.

(** After the loop the keys are the ones held before, then the new
    identifiers in the order in which the rows first yield them. *)
Lemma load_rows_keys st labels st' :
  load_rows st labels = Ok st' →
  length (ids_of labels) = length labels ∧
  counter st' = counter st + Z.of_nat (length labels) ∧
  Dict.keys (drug_links st') =
    Dict.keys (drug_links st) ++
    first_seen (list_to_set (Dict.keys (drug_links st))) (ids_of labels).
Proof.
  revert st. induction labels as [|r rest IH]; intros st; cbn [load_rows].
  - intros [= <-]. simpl. rewrite app_nil_r. repeat split. lia.
  - destruct (load_row st r) as [st1|] eqn:Hr; cbn [result_bind]; [|done].
    apply load_row_inv in Hr as (id & Hid & ->).
    intros (Hlen & Hcount & Hkeys)%IH. cbn [drug_links counter] in *.
    rewrite (ids_of_cons_yields id) by done. cbn [length first_seen].
    split; [by rewrite Hlen|]. split; [lia|].
    rewrite Hkeys, dict_keys_set.
    destruct (decide (id ∈ Dict.keys (drug_links st))) as [Hin|Hnin].
    + rewrite decide_True; [done|]. by apply elem_of_list_to_set.
    + rewrite decide_False by (by rewrite elem_of_list_to_set).
      rewrite <-app_assoc. cbn [app]. do 3 f_equal.
      rewrite list_to_set_app_L. cbn [list_to_set foldr].
      rewrite (right_id_L ∅ (∪)). apply (comm_L (∪)).
Qed.



Lemma main_fetcher labels site fs cat :
  load_catalog labels = Ok cat →
  main true labels (boot site fs) =
  match download_loop (drug_links cat) (drug_links cat).*1 0
          (mkWorld site fs
             ((EvPrint <$> header_lines cat) ++ [EvListdir DATA_PATH]))
  with
  | (Ok _, w2) =>
      (Ok tt, mkWorld (remote w2) (files w2) (trace w2 ++ [EvPrint final_line]))
  | (Raise e, w2) => (Raise e, w2)
  end.
Proof.
  intros Hcat. rewrite (main_run true labels cat _ Hcat). cbn zeta.
  rewrite fetcher_run. cbn [remote files trace boot app]. unfold Dict.keys.
  by destruct (download_loop _ _ _ _) as [[m|e] w2].
Qed.

Lemma main_Ok_loaded b labels w :
  (main b labels w).1 = Ok tt → ∃ cat, load_catalog labels = Ok cat.
Proof.
  destruct (load_catalog labels) as [cat|e] eqn:Hcat; [by exists cat|].
  by rewrite (main_load_error b labels e w Hcat).
Qed.

(** What a Fetcher run that completes has done. *)
Lemma fetcher_complete labels site fs cat :
  load_catalog labels = Ok cat →
  (main true labels (boot site fs)).1 = Ok tt →
  let w' := (main true labels (boot site fs)).2 in
  opened (trace w') = out_path <$> Dict.keys (drug_links cat) ∧
  (∀ p, p ∉ out_path <$> Dict.keys (drug_links cat) →
        files w' !! p = fs !! p) ∧
  (∀ it, it ∈ drug_links cat →
     ∃ r, site it.2 = Some r ∧
          files w' !! out_path it.1 = Some (concat (iter_content r 1024))).
Proof.
  intros Hcat. rewrite (main_fetcher labels site fs cat Hcat).
  destruct (load_catalog_NoDup labels cat Hcat) as [Hnd _].
  pose proof (resolved_self _ Hnd) as Hres. unfold Dict.keys in *.
  destruct (download_loop _ _ _ _) as [[m|e] w2] eqn:Hloop; [|done].
  intros _. cbn [snd remote trace files].
  apply download_loop_files in Hloop as (Hrem & Hop & Hother & Hthese);
    [|done..].
  cbn [remote files trace] in *.
  split; [|by split].
  rewrite opened_app, Hop, opened_app. unfold header_lines. simpl.
  by rewrite app_nil_r.
Qed.

(** X4. The keys of the mapping stand in the order in which the rows of
    the catalogue first yield them, and a Fetcher run that completes
    opens the files in that order. *)
Theorem fetch_order (labels : list Row) (site : string → option response)
    (fs : gmap string (list Byte.byte)) (cat : catalog) :
  load_catalog labels = Ok cat →
  Dict.keys (drug_links cat) = first_seen ∅ (ids_of labels) ∧
  ((main true labels (boot site fs)).1 = Ok tt →
   opened (trace (main true labels (boot site fs)).2)
   = out_path <$> first_seen ∅ (ids_of labels)).
Proof.
  intros Hcat.
  destruct (load_rows_keys _ _ _ Hcat) as (_ & _ & Hkeys).
  cbn [empty_catalog drug_links Dict.keys fmap list_fmap app] in Hkeys.
  change (list_to_set []) with (∅ : gset Z) in Hkeys.
  split; [done|]. intros Hok.
  destruct (fetcher_complete labels site fs cat Hcat Hok) as (Hop & _).
  by rewrite Hop, Hkeys.
Qed.

Lemma fetch_order_witness :
  opened (trace (main true
                   [mkRow "A3" Demo.url7; mkRow "A1" Demo.url42a;
                    mkRow "A4" Demo.url7; mkRow "A2" Demo.url42b]
                   (boot Demo.site ∅)).2)
  = [out_path 7; out_path 42].
Proof.
  apply (proj2 (fetch_order
                  [mkRow "A3" Demo.url7; mkRow "A1" Demo.url42a;
                   mkRow "A4" Demo.url7; mkRow "A2" Demo.url42b]
                  Demo.site ∅
                  (mkCatalog [(7, Demo.url7); (42, Demo.url42b)]
                     [(7, "A4"%string); (42, "A2"%string)] 4)
                  ltac:(vm_compute; reflexivity))).
  vm_compute. reflexivity.
Defined.

(** X5. The load stops at the first malformed row: the exception is the
    one the extraction raises on that row, whatever the rows after it,
    and the main method ends with it, in either mode, having done
    nothing. *)
Theorem load_catalog_first_error (good : list Row) (bad : Row)
    (rest : list Row) (e : exn) :
  Forall (λ r, is_Ok (extract_drug_id (Link r))) good →
  extract_drug_id (Link bad) = Raise e →
  load_catalog (good ++ bad :: rest) = Raise e ∧
  ∀ DOWNLOAD_DATA site fs,
    main DOWNLOAD_DATA (good ++ bad :: rest) (boot site fs)
    = (Raise e, boot site fs).
Proof.
  intros Hgood Hbad.
  assert (load_catalog (good ++ bad :: rest) = Raise e) as Hload.
  { unfold load_catalog. rewrite load_rows_app.
    destruct (load_rows_total empty_catalog good Hgood) as [st ->].
    simpl. unfold load_row. by rewrite Hbad. }
  split; [done|]. intros b site fs. by apply main_load_error.
Qed.

Lemma load_catalog_first_error_witness :
  load_catalog ([mkRow "A1" Demo.url42a]
                ++ mkRow "A2" "http://x/y&id=4x2" :: [mkRow "A3" "http://x/y"])
  = Raise ValueError.
Proof.
  apply (load_catalog_first_error [mkRow "A1" Demo.url42a]
           (mkRow "A2" "http://x/y&id=4x2") [mkRow "A3" "http://x/y"]).
  - repeat constructor. eexists. vm_compute. reflexivity.
  - vm_compute. reflexivity.
Defined.

(** ** When a download fails *)

(** X6. When the request itself fails, [download_file] raises before it
    opens anything: no file is created, and a file already at
    [local_filename] keeps its contents. *)
Theorem download_file_request_fails (url local_filename : string)
    (w : world) :
  remote w url = None →
  let res := (download_file url local_filename w).1 in
  let w' := (download_file url local_filename w).2 in
  res = Raise ConnectionError ∧
  files w' = files w ∧
  trace w' = trace w ++ [EvGet url].
Proof. intros Hr. rewrite download_file_run, Hr. done. Qed.

Lemma download_file_request_fails_witness :
  files (download_file "http://x/gone" (out_path 42)
           (boot Demo.site Demo.stale)).2 = Demo.stale.
Proof.
  apply (download_file_request_fails "http://x/gone" (out_path 42)
           (boot Demo.site Demo.stale)).
  vm_compute. reflexivity.
Defined.

(** X7. When the connection breaks while the body is streamed,
    [download_file] raises, but only after closing the file: what the
    file held before is gone, and it holds the chunks that arrived. *)
Theorem download_file_stream_breaks (url local_filename : string)
    (w : world) (r : response) :
  remote w url = Some r → stream_fails r = true →
  let res := (download_file url local_filename w).1 in
  let w' := (download_file url local_filename w).2 in
  res = Raise ConnectionError ∧
  files w' !! local_filename = Some (concat (iter_content r 1024)) ∧
  last (trace w') = Some (EvClose local_filename).
Proof.
  intros Hr Hfails. rewrite download_file_run, Hr, Hfails.
  cbn zeta. cbn [fst snd files trace].
  split; [done|]. split; [by rewrite lookup_insert_eq|].
  cbn [app]. rewrite !app_comm_cons, app_assoc. apply last_snoc.
Qed.

Lemma download_file_stream_breaks_witness :
  files (download_file Demo.url42b (out_path 42)
           (boot Outage.breaking Demo.stale)).2 !! out_path 42
  = Some (Demo.bytes "BODY").
Proof.
  apply (download_file_stream_breaks Demo.url42b (out_path 42)
           (boot Outage.breaking Demo.stale) Outage.cut_short).
  - vm_compute. reflexivity.
  - reflexivity.
Defined.

Lemma slept_app t1 t2 : slept (t1 ++ t2) = slept t1 ++ slept t2.
Proof. apply omap_app. Qed.

Lemma chunk_events_slept f chunks : slept (chunk_events f chunks) = [].
Proof.
  unfold chunk_events, slept. induction chunks as [|c l IH]; [done|]. csimpl.
  rewrite omap_app, IH. by destruct (truthy c).
Qed.

Lemma round_events_slept n id url r :
  slept (round_events n id url r) = [WAIT_TIME].
Proof.
  unfold round_events. rewrite !slept_app, chunk_events_slept.
  by destruct ((n + 1) mod 100 =? 0).
Qed.

Lemma failed_events_slept id url r : slept (failed_events id url r) = [].
Proof.
  destruct r as [r|]; [|done]. unfold failed_events.
  by rewrite !slept_app, chunk_events_slept.
Qed.

Section DownloadLoopOutcome.

Variable links : list (Z * string).

(** A loop that completes has fetched every item once and slept after
    each. *)
Lemma download_loop_done its n w m w' :
  resolved links its →
  download_loop links its.*1 n w = (Ok m, w') →
  requested (trace w') = requested (trace w) ++ its.*2 ∧
  slept (trace w') = slept (trace w) ++ replicate (length its) WAIT_TIME ∧
  printed (trace w') = printed (trace w) ++ lines_from n its.
Proof.
  intros Hres. revert n w.
  induction Hres as [|[id url] its Hurl _ IH]; intros n w.
  - intros [= <- <-]. by rewrite !app_nil_r.
  - simpl in Hurl. rewrite fmap_cons. cbn [fst].
    rewrite (download_loop_cons links id _ n w url Hurl).
    destruct (remote w url) as [r|]; [|done].
    destruct (stream_fails r); [done|].
    intros (Hrq & Hsl & Hpr)%IH. cbn [trace] in *.
    rewrite Hrq, Hsl, Hpr, requested_app, slept_app, printed_app,
      round_events_requested, round_events_slept, round_events_printed,
      lines_from_cons.
    by rewrite <-!app_assoc.
Qed.

(** A loop that raises has stopped at the first item whose download
    fails: the items before it are fetched, stored and slept after; the
    failing one is requested; nothing else is touched. *)
Lemma download_loop_abort its n w e w' :
  resolved links its → NoDup its.*1 →
  download_loop links its.*1 n w = (Raise e, w') →
  e = ConnectionError ∧
  ∃ before it rest,
    its = before ++ it :: rest ∧
    (remote w it.2 = None ∨
     ∃ r, remote w it.2 = Some r ∧ stream_fails r = true) ∧
    requested (trace w') = requested (trace w) ++ (before ++ [it]).*2 ∧
    printed (trace w') = printed (trace w) ++ lines_from n before ∧
    slept (trace w') = slept (trace w) ++ replicate (length before) WAIT_TIME ∧
    (∀ d, d ∈ before →
       ∃ r, remote w d.2 = Some r ∧
            files w' !! out_path d.1 = Some (concat (iter_content r 1024))) ∧
    (∀ p, p ∉ out_path <$> (before ++ [it]).*1 → files w' !! p = files w !! p).
Proof.
  intros Hres. revert n w.
  induction Hres as [|[id url] its Hurl _ IH]; intros n w Hnd; [done|].
  simpl in Hurl. rewrite fmap_cons in *. cbn [fst] in *.
  apply NoDup_cons in Hnd as [Hid Hnd].
  rewrite (download_loop_cons links id _ n w url Hurl).
  destruct (remote w url) as [r|] eqn:Hr; [destruct (stream_fails r) eqn:Hf|].
  - destruct (failed_events_quiet id url (Some r)) as [Hp Hq].
    pose proof (failed_events_slept id url (Some r)) as Hs.
    set (fe := failed_events id url (Some r)) in *.
    intros [= <- <-]. split; [done|]. exists [], (id, url), its.
    cbn [trace files app fmap list_fmap fst snd length replicate].
    rewrite requested_app, printed_app, slept_app, Hp, Hq, Hs.
    repeat split; try done.
    + right. by exists r.
    + by intros d ?%elem_of_nil.
    + intros p [Hp' _]%not_elem_of_cons. by rewrite lookup_insert_ne.
  - intros (-> & before & it & rest & -> & Hfail & Hrq & Hpr & Hsl & Hdone
            & Hother)%IH; [|done].
    split; [done|]. exists ((id, url) :: before), it, rest.
    cbn [remote trace files] in *.
    assert (out_path id ∉ out_path <$> (before ++ [it]).*1) as Hfresh.
    { intros (id' & ->%out_path_inj & Hin)%list_elem_of_fmap. apply Hid.
      rewrite fmap_app, fmap_cons, elem_of_app. rewrite fmap_app in Hin.
      apply elem_of_app in Hin as [?|Hin]; [by left|right].
      apply list_elem_of_singleton in Hin as ->. left. }
    rewrite Hrq, Hpr, Hsl, requested_app, printed_app, slept_app,
      round_events_requested, round_events_printed, round_events_slept,
      lines_from_cons.
    repeat split; try done.
    + by rewrite <-!app_assoc.
    + by rewrite <-!app_assoc.
    + by rewrite <-!app_assoc.
    + intros d [->|Hd]%elem_of_cons; [|by apply Hdone].
      exists r. split; [done|]. cbn [fst].
      rewrite Hother by done. by rewrite lookup_insert_eq.
    + intros p Hp. rewrite <-app_comm_cons, !fmap_cons in Hp.
      apply not_elem_of_cons in Hp as [Hp Hps].
      rewrite Hother by done. by rewrite lookup_insert_ne.
  - destruct (failed_events_quiet id url None) as [Hp Hq].
    pose proof (failed_events_slept id url None) as Hs.
    set (fe := failed_events id url None) in *.
    intros [= <- <-]. split; [done|]. exists [], (id, url), its.
    cbn [trace files app fmap list_fmap fst snd length replicate].
    rewrite requested_app, printed_app, slept_app, Hp, Hq, Hs.
    repeat split; try done.
    + by left.
    + by intros d ?%elem_of_nil.
Qed.

End DownloadLoopOutcome.



Lemma header_events_quiet cat :
  requested ((EvPrint <$> header_lines cat) ++ [EvListdir DATA_PATH]) = [] ∧
  slept ((EvPrint <$> header_lines cat) ++ [EvListdir DATA_PATH]) = [] ∧
  printed ((EvPrint <$> header_lines cat) ++ [EvListdir DATA_PATH])
  = header_lines cat.
Proof. by unfold header_lines. Qed.



(** X14. Every sleep of a Fetcher run lasts [WAIT_TIME].  A run that
    completes sleeps once for each key, after each of its requests; a run
    that fails on a download has slept once for each request but the
    last. *)
Theorem fetcher_sleeps (labels : list Row) (site : string → option response)
    (fs : gmap string (list Byte.byte)) (cat : catalog) :
  load_catalog labels = Ok cat →
  let res := (main true labels (boot site fs)).1 in
  let t := trace (main true labels (boot site fs)).2 in
  slept t = replicate (length (slept t)) WAIT_TIME ∧
  match res with
  | Ok _ => length (slept t) = length (Dict.keys (drug_links cat)) ∧
            length (requested t) = length (slept t)
  | Raise _ => length (requested t) = S (length (slept t))
  end.
Proof.
  intros Hcat. rewrite (main_fetcher labels site fs cat Hcat).
  destruct (load_catalog_NoDup labels cat Hcat) as [Hnd _].
  pose proof (resolved_self _ Hnd) as Hres. unfold Dict.keys in *.
  destruct (header_events_quiet cat) as (Hq & Hs & _).
  destruct (download_loop _ _ _ _) as [[m|e] w2] eqn:Hloop; cbn [fst snd trace].
  - apply download_loop_done in Hloop as (Hrq & Hsl & _); [|done].
    cbn [trace] in *. rewrite Hq in Hrq. rewrite Hs in Hsl.
    rewrite slept_app, requested_app, Hrq, Hsl. simpl.
    rewrite !app_nil_r, length_replicate, !length_fmap. done.
  - apply download_loop_abort in Hloop
      as (_ & before & it & rest & _ & _ & Hrq & _ & Hsl & _); [|done..].
    cbn [trace] in *. rewrite Hq in Hrq. rewrite Hs in Hsl.
    rewrite Hrq, Hsl. simpl.
    rewrite length_replicate, length_fmap, length_app. simpl.
    split; [done|lia].
Qed.

Lemma fetcher_sleeps_witness :
  length (requested (trace (main true Demo.labels
                              (boot Outage.refusing Demo.stale)).2))
  = S (length (slept (trace (main true Demo.labels
                               (boot Outage.refusing Demo.stale)).2))).
Proof.
  exact (proj2 (fetcher_sleeps Demo.labels Outage.refusing Demo.stale Demo.cat
                  ltac:(vm_compute; reflexivity))).
Defined.

(** ** Requests and files across runs *)

Lemma dict_set_Forall {V} (P : Z * V → Prop) k v (d : list (Z * V)) :
  Forall P d → P (k, v) → Forall P (Dict.set k v d).
Proof.
  intros Hd Hkv. induction Hd as [|[k0 v0] d H0 Hd IH]; simpl.
  - by constructor.
  - case_decide; by constructor.
Qed.

(** Every URL in the mapping yields the key it stands under. *)
Lemma load_rows_urls st labels st' :
  Forall (λ it, extract_drug_id it.2 = Ok it.1) (drug_links st) →
  load_rows st labels = Ok st' →
  Forall (λ it, extract_drug_id it.2 = Ok it.1) (drug_links st').
Proof.
  revert st. induction labels as [|r rest IH]; intros st Hst; simpl.
  - by intros [= <-].
  - destruct (load_row st r) as [st1|] eqn:Hr; simpl; [|done].
    apply load_row_inv in Hr as (id & Hid & ->). apply IH. simpl.
    by apply dict_set_Forall.
Qed.

Lemma values_NoDup (l : list (Z * string)) :
  NoDup l.*1 → Forall (λ it, extract_drug_id it.2 = Ok it.1) l → NoDup l.*2.
Proof.
  induction l as [|[k v] l IH]; csimpl; [constructor|].
  intros [Hk Hnd]%NoDup_cons [Hkv Hl]%Forall_cons. simpl in Hkv.
  constructor; [|by apply IH].
  intros ([k' v'] & Hv & Hin)%list_elem_of_fmap. simpl in Hv. subst v'.
  apply Hk. apply list_elem_of_fmap. exists (k', v). split; [|done].
  rewrite Forall_forall in Hl. specialize (Hl _ Hin). simpl in *. congruence.
Qed.

(** X9. A Fetcher run never requests a URL twice, however often an
    identifier occurs in the catalogue and whether or not the run
    completes. *)
Theorem fetcher_requests_once (labels : list Row)
    (site : string → option response) (fs : gmap string (list Byte.byte)) :
  NoDup (requested (trace (main true labels (boot site fs)).2)).
Proof.
  destruct (load_catalog labels) as [cat|e] eqn:Hcat;
    [|rewrite (main_load_error _ _ e) by done; constructor].
  rewrite (main_fetcher labels site fs cat Hcat).
  destruct (load_catalog_NoDup labels cat Hcat) as [Hnd _].
  pose proof (resolved_self _ Hnd) as Hres.
  assert (NoDup (drug_links cat).*2) as Hurls.
  { apply values_NoDup; [done|].
    by apply (load_rows_urls empty_catalog labels cat). }
  destruct (header_events_quiet cat) as (Hq & _ & _).
  destruct (download_loop _ _ _ _) as [[m|e] w2] eqn:Hloop; cbn [snd trace].
  - apply download_loop_done in Hloop as (Hrq & _); [|done].
    cbn [trace] in Hrq. rewrite Hq in Hrq.
    rewrite requested_app, Hrq. simpl. by rewrite app_nil_r.
  - apply download_loop_abort in Hloop
      as (_ & before & it & rest & Hlinks & _ & Hrq & _); [|done..].
    cbn [trace] in Hrq. rewrite Hq in Hrq. rewrite Hrq. simpl.
    rewrite Hlinks in Hurls.
    replace (before ++ it :: rest) with ((before ++ [it]) ++ rest) in Hurls
      by (by rewrite <-app_assoc).
    rewrite fmap_app in Hurls. by apply NoDup_app in Hurls as (? & _).
Qed.

(** The loop neither reads the files nor lets them decide anything. *)
Lemma download_loop_same links ids n w1 w2 :
  remote w1 = remote w2 → trace w1 = trace w2 →
  (download_loop links ids n w1).1 = (download_loop links ids n w2).1 ∧
  trace (download_loop links ids n w1).2
  = trace (download_loop links ids n w2).2.
Proof.
  revert n w1 w2. induction ids as [|id ids IH]; intros n w1 w2 Hrem Htr.
  - done.
  - destruct (Dict.get links id) as [url|] eqn:Hurl.
    + rewrite !(download_loop_cons links id ids n _ url Hurl).
      rewrite Hrem, Htr.
      destruct (remote w2 url) as [r|]; [|done].
      destruct (stream_fails r); [done|]. by apply IH.
    + cbn [download_loop]. unfold bind, lift, Dict.getitem. by rewrite Hurl.
Qed.

Lemma fetcher_result_same labels site
    (fs1 fs2 : gmap string (list Byte.byte)) :
  (main true labels (boot site fs1)).1 = (main true labels (boot site fs2)).1.
Proof.
  destruct (load_catalog labels) as [cat|e] eqn:Hcat;
    [|by rewrite !(main_load_error _ _ e) by done].
  rewrite !(main_fetcher labels site _ cat Hcat).
  destruct (download_loop_same (drug_links cat) (drug_links cat).*1 0
              (mkWorld site fs1
                 ((EvPrint <$> header_lines cat) ++ [EvListdir DATA_PATH]))
              (mkWorld site fs2
                 ((EvPrint <$> header_lines cat) ++ [EvListdir DATA_PATH]))
              eq_refl eq_refl) as [Hres _].
  destruct (download_loop _ _ _ (mkWorld site fs1 _)) as [[m1|e1] w1];
    destruct (download_loop _ _ _ (mkWorld site fs2 _)) as [[m2|e2] w2];
    cbn [fst snd] in *; try discriminate Hres; [done|].
  by injection Hres as ->.
Qed.

(** X10. Two Fetcher runs against the same site that both complete, or
    that both end on a failed download, have requested, opened, written,
    printed and slept the same, in the same order, whatever files were
    there when each of them started: nothing already downloaded is
    skipped or resumed. *)
Theorem fetcher_ignores_files (labels : list Row)
    (site : string → option response)
    (fs1 fs2 : gmap string (list Byte.byte)) (res : result unit) :
  res = Ok tt ∨ res = Raise ConnectionError →
  (main true labels (boot site fs1)).1 = res →
  (main true labels (boot site fs2)).1 = res →
  trace (main true labels (boot site fs1)).2
  = trace (main true labels (boot site fs2)).2.
Proof.
  intros _ _ _.
  destruct (load_catalog labels) as [cat|e] eqn:Hcat;
    [|by rewrite !(main_load_error _ _ e) by done].
  rewrite !(main_fetcher labels site _ cat Hcat).
  destruct (download_loop_same (drug_links cat) (drug_links cat).*1 0
              (mkWorld site fs1
                 ((EvPrint <$> header_lines cat) ++ [EvListdir DATA_PATH]))
              (mkWorld site fs2
                 ((EvPrint <$> header_lines cat) ++ [EvListdir DATA_PATH]))
              eq_refl eq_refl) as [Hres Htr].
  destruct (download_loop _ _ _ (mkWorld site fs1 _)) as [[m1|e1] w1];
    destruct (download_loop _ _ _ (mkWorld site fs2 _)) as [[m2|e2] w2];
    cbn [fst snd trace] in *; try discriminate Hres.
  - by rewrite Htr.
  - done.
Qed.

Lemma fetcher_ignores_files_witness :
  trace (main true Demo.labels (boot Demo.site ∅)).2
  = trace (main true Demo.labels (boot Demo.site Demo.stale)).2.
Proof.
  apply (fetcher_ignores_files Demo.labels Demo.site ∅ Demo.stale (Ok tt)).
  - by left.
  - vm_compute. reflexivity.
  - vm_compute. reflexivity.
Defined.

(** X11. Running the Fetcher again on the files a complete run left
    behind, against the same site, completes as well and leaves the same
    files. *)
Theorem fetcher_rerun (labels : list Row) (site : string → option response)
    (fs : gmap string (list Byte.byte)) :
  (main true labels (boot site fs)).1 = Ok tt →
  let fs' := files (main true labels (boot site fs)).2 in
  (main true labels (boot site fs')).1 = Ok tt ∧
  files (main true labels (boot site fs')).2 = fs'.
Proof.
  intros Hok. cbn zeta.
  destruct (main_Ok_loaded _ _ _ Hok) as [cat Hcat].
  assert ((main true labels
             (boot site (files (main true labels (boot site fs)).2))).1
          = Ok tt) as Hok'.
  { by rewrite (fetcher_result_same labels site _ fs). }
  split; [done|].
  destruct (fetcher_complete labels site fs cat Hcat Hok)
    as (_ & _ & Hthese).
  destruct (fetcher_complete labels site _ cat Hcat Hok')
    as (_ & Hother' & Hthese').
  apply map_eq. intros p.
  destruct (decide (p ∈ out_path <$> Dict.keys (drug_links cat)))
    as [Hp|Hp]; [|by apply Hother'].
  apply list_elem_of_fmap in Hp as (id & -> & Hid).
  apply list_elem_of_fmap in Hid as (it & -> & Hit).
  destruct (Hthese it Hit) as (r & Hr & ->).
  destruct (Hthese' it Hit) as (r' & Hr' & ->). congruence.
Qed.

Lemma fetcher_rerun_witness :
  files (main true Demo.labels
           (boot Demo.site
              (files (main true Demo.labels (boot Demo.site Demo.stale)).2))).2
  = files (main true Demo.labels (boot Demo.site Demo.stale)).2.
Proof.
  apply (fetcher_rerun Demo.labels Demo.site Demo.stale).
  vm_compute. reflexivity.
Defined.

(** ** File names and the check after a fetch *)

Lemma strip_prefix_app (p s : string) : strip_prefix p (p +:+ s) = Some s.
Proof.
  induction p as [|c p IH]; str_simpl; [by destruct s|].
  by rewrite decide_True.
Qed.

Lemma first_component_whole (s : string) :
  occurs "/" s = false → first_component s = s.
Proof.
  induction s as [|c s IH]; simpl; [done|].
  intros [Hc Hs]%orb_false_elim. apply bool_decide_eq_false in Hc.
  rewrite decide_False by done. by rewrite IH.
Qed.

Lemma file_name_inj id1 id2 : file_name id1 = file_name id2 → id1 = id2.
Proof.
  unfold file_name. intros H%append_cancel_r. by apply (inj pretty) in H.
Qed.

Lemma entry_of_out_path id :
  entry_of DATA_PATH (out_path id) = Some (file_name id).
Proof.
  unfold entry_of, out_path. rewrite strip_prefix_app.
  fold (file_name id). rewrite first_component_whole.
  - destruct (file_name id) as [|c s] eqn:Hname; [|done].
    apply (f_equal String.length) in Hname. unfold file_name in Hname.
    rewrite append_length in Hname. simpl in Hname. lia.
  - unfold file_name. rewrite occurs_app, str_occurs; done.
Qed.

(** What Checker mode prints, and that it returns normally. *)
Lemma checker_printed labels site fs cat :
  load_catalog labels = Ok cat →
  (main false labels (boot site fs)).1 = Ok tt ∧
  printed (trace (main false labels (boot site fs)).2) =
    header_lines cat ++
    (if Py.len (Dict.keys (drug_links cat)) =? Py.len (dir_entries fs DATA_PATH)
     then ["Total files: " +:+ Py.str (Py.len (dir_entries fs DATA_PATH));
           match_line]
     else [missing_line (Py.len (Dict.keys (drug_links cat)))
             (Py.len (dir_entries fs DATA_PATH))]) ++ [final_line].
Proof.
  intros Hcat. rewrite (main_run false labels cat _ Hcat). cbn zeta.
  rewrite checker_run. cbn [remote files trace boot app fst snd].
  split; [done|]. unfold header_lines.
  destruct (_ =? _); reflexivity.
Qed.

(** After a complete run the directory lists the files of the keys, and
    whatever else it listed before. *)
Lemma dir_entries_after_fetch labels site fs cat :
  load_catalog labels = Ok cat →
  (main true labels (boot site fs)).1 = Ok tt →
  ∀ name,
    name ∈ dir_entries (files (main true labels (boot site fs)).2) DATA_PATH ↔
    name ∈ file_name <$> Dict.keys (drug_links cat) ∨
    name ∈ dir_entries fs DATA_PATH.
Proof.
  intros Hcat Hok name.
  destruct (fetcher_complete labels site fs cat Hcat Hok)
    as (_ & Hother & Hthese).
  unfold dir_entries. rewrite !elem_of_elements, !elem_of_set_omap. split.
  - intros (p & Hp & Hname). apply elem_of_dom in Hp.
    destruct (decide (p ∈ out_path <$> Dict.keys (drug_links cat)))
      as [Hin|Hnin].
    + left. apply list_elem_of_fmap in Hin as (id & -> & Hid).
      rewrite entry_of_out_path in Hname. injection Hname as <-.
      apply list_elem_of_fmap. by exists id.
    + right. exists p. split; [|done]. apply elem_of_dom.
      by rewrite <-Hother.
  - intros [Hin|(p & Hp & Hname)].
    + apply list_elem_of_fmap in Hin as (id & -> & Hid).
      exists (out_path id). split; [|apply entry_of_out_path].
      apply list_elem_of_fmap in Hid as (it & -> & Hit).
      destruct (Hthese it Hit) as (r & _ & Hfile).
      apply elem_of_dom. by rewrite Hfile.
    + exists p. split; [|done]. apply elem_of_dom. apply elem_of_dom in Hp.
      destruct (decide (p ∈ out_path <$> Dict.keys (drug_links cat)))
        as [Hin|Hnin]; [|by rewrite Hother].
      apply list_elem_of_fmap in Hin as (id & -> & Hid).
      apply list_elem_of_fmap in Hid as (it & -> & Hit).
      destruct (Hthese it Hit) as (r & _ & Hfile). by rewrite Hfile.
Qed.

Lemma dir_entries_NoDup fs dir : NoDup (dir_entries fs dir).
Proof. unfold dir_entries. apply NoDup_elements. Qed.

(** X12. When the output directory lists nothing but pages of the
    catalogue's identifiers (an empty directory, say), a Fetcher run
    that completes leaves exactly one entry per key there, and a Checker
    run on the result reports a match. *)
Theorem fetch_then_check (labels : list Row) (site : string → option response)
    (fs : gmap string (list Byte.byte)) (cat : catalog) :
  load_catalog labels = Ok cat →
  (∀ name, name ∈ dir_entries fs DATA_PATH →
           name ∈ file_name <$> Dict.keys (drug_links cat)) →
  (main true labels (boot site fs)).1 = Ok tt →
  let fs' := files (main true labels (boot site fs)).2 in
  dir_entries fs' DATA_PATH ≡ₚ file_name <$> Dict.keys (drug_links cat) ∧
  match_line ∈ printed (trace (main false labels (boot site fs')).2).
Proof.
  intros Hcat Hfresh Hok. cbn zeta.
  destruct (load_catalog_NoDup labels cat Hcat) as [Hnd _].
  assert (dir_entries (files (main true labels (boot site fs)).2) DATA_PATH
          ≡ₚ file_name <$> Dict.keys (drug_links cat)) as Hperm.
  { apply NoDup_Permutation.
    - apply dir_entries_NoDup.
    - apply NoDup_fmap_2; [|done]. intros ??. apply file_name_inj.
    - intros name. rewrite (dir_entries_after_fetch labels site fs cat) by done.
      split; [|by left]. intros [?|?]; auto. }
  split; [done|].
  destruct (checker_printed labels site
              (files (main true labels (boot site fs)).2) cat Hcat)
    as [_ ->].
  apply match_line_only_on_match. unfold Py.len. f_equal.
  by rewrite Hperm, length_fmap.
Qed.

Lemma fetch_then_check_witness :
  match_line ∈
    printed (trace (main false Demo.labels
                      (boot Demo.site
                         (files (main true Demo.labels
                                   (boot Demo.site Demo.stale)).2))).2).
Proof.
  apply (fetch_then_check Demo.labels Demo.site Demo.stale Demo.cat).
  - vm_compute. reflexivity.
  - intros name Hname. vm_compute in Hname.
    apply list_elem_of_singleton in Hname as ->. vm_compute. left.
  - vm_compute. reflexivity.
Defined.

(** ** Milestones *)

Lemma milestone_line_inj a b : milestone_line a = milestone_line b → a = b.
Proof.
  unfold milestone_line. intros H%String.app_inj. by apply (inj pretty) in H.
Qed.

(** The lines of [lines_from]: the progress line of every item, and the
    milestone line of every position that is a multiple of 100. *)
Lemma lines_from_elem k items l :
  l ∈ lines_from k items ↔
  ∃ i it, items !! i = Some it ∧
    (l = progress_line it.1 it.2 ∨
     l = milestone_line (k + Z.of_nat (S i)) ∧ (k + Z.of_nat (S i)) mod 100 = 0).
Proof.
  revert k. induction items as [|it0 items IH]; intros k.
  - split; [by intros ?%elem_of_nil|]. by intros (i & it & ? & _).
  - rewrite lines_from_cons, elem_of_cons, elem_of_app, IH. split.
    + intros [->|[Hms|(i & it & Hi & Hl)]].
      * exists 0%nat, it0. split; [done|by left].
      * destruct ((k + 1) mod 100 =? 0) eqn:Hmod;
          [|by apply elem_of_nil in Hms].
        apply list_elem_of_singleton in Hms as ->. apply Z.eqb_eq in Hmod.
        exists 0%nat, it0. split; [done|]. right.
        by replace (k + Z.of_nat 1) with (k + 1) by lia.
      * exists (S i), it. split; [done|].
        by replace (k + Z.of_nat (S (S i))) with (k + 1 + Z.of_nat (S i))
          by lia.
    + intros ([|i] & it & Hi & Hl).
      * injection Hi as <-. destruct Hl as [->|[-> Hmod]]; [by left|].
        right. left. replace (k + Z.of_nat 1) with (k + 1) in * by lia.
        apply Z.eqb_eq in Hmod as ->. left.
      * right. right. exists i, it. split; [done|].
        by replace (k + 1 + Z.of_nat (S i)) with (k + Z.of_nat (S (S i)))
          by lia.
Qed.

(** X16. In a Fetcher run that completes, the milestone lines printed
    are those of the positive multiples of 100 up to the number of keys,
    and no others. *)
Theorem fetcher_milestones (labels : list Row)
    (site : string → option response) (fs : gmap string (list Byte.byte))
    (cat : catalog) (m : Z) :
  load_catalog labels = Ok cat →
  (main true labels (boot site fs)).1 = Ok tt →
  milestone_line m ∈ printed (trace (main true labels (boot site fs)).2) ↔
  0 < m ≤ Py.len (Dict.keys (drug_links cat)) ∧ m mod 100 = 0.
Proof.
  intros Hcat. rewrite (main_fetcher labels site fs cat Hcat).
  destruct (load_catalog_NoDup labels cat Hcat) as [Hnd _].
  pose proof (resolved_self _ Hnd) as Hres.
  destruct (header_events_quiet cat) as (_ & _ & Hh).
  destruct (download_loop _ _ _ _) as [[n|e] w2] eqn:Hloop; [|done].
  intros _. cbn [snd trace].
  apply download_loop_done in Hloop as (_ & _ & Hpr); [|done].
  cbn [trace] in Hpr. rewrite Hh in Hpr.
  rewrite printed_app, Hpr.
  change (printed [EvPrint final_line]) with [final_line].
  rewrite !elem_of_app, lines_from_elem, list_elem_of_singleton.
  unfold Py.len, Dict.keys. rewrite length_fmap. split.
  - intros [[Hin|(i & it & Hi & [Hl|[Hl Hmod]])]|Hl].
    + unfold header_lines, milestone_line in Hin.
      rewrite !elem_of_cons, elem_of_nil in Hin. str_simpl.
      destruct Hin as [H|[H|[H|[]]]]; discriminate H.
    + unfold milestone_line, progress_line in Hl. str_simpl. discriminate Hl.
    + apply milestone_line_inj in Hl as ->. apply lookup_lt_Some in Hi.
      split; [lia|done].
    + unfold milestone_line, final_line in Hl. str_simpl. discriminate Hl.
  - intros [Hm Hmod]. left. right.
    destruct (lookup_lt_is_Some_2 (drug_links cat) (Z.to_nat (m - 1)))
      as [it Hit]; [lia|].
    exists (Z.to_nat (m - 1)), it. split; [done|]. right.
    by replace (0 + Z.of_nat (S (Z.to_nat (m - 1)))) with m by lia.
Qed.

Lemma fetcher_milestones_witness :
  milestone_line 100 ∈
    printed (trace (main true Demo.hundred (boot Demo.always ∅)).2).
Proof.
  apply (fetcher_milestones Demo.hundred Demo.always ∅
           (mkCatalog
              ((λ r, (Z.of_nat r.1, Link r.2)) <$> zip (seq 1 100) Demo.hundred)
              ((λ r, (Z.of_nat r.1, Application_Number r.2))
                 <$> zip (seq 1 100) Demo.hundred) 100) 100).
  - vm_compute. reflexivity.
  - vm_compute. reflexivity.
  - vm_compute. split; [split|]; congruence.
Defined.

(** ** The two mappings, row by row *)

(** X17. When the load completes, the keys are the identifiers that some
    row yields, and under each key the two mappings hold the [Link] and
    the [Application Number] of one and the same row, which yields that
    key: the URL stored under a key always extracts to that key. *)
Theorem load_catalog_rowwise (labels : list Row) (cat : catalog) (id : Z) :
  load_catalog labels = Ok cat →
  (id ∈ Dict.keys (drug_links cat) ↔ ∃ row, row ∈ labels ∧ yields id row) ∧
  (id ∈ Dict.keys (drug_links cat) →
   ∃ row, row ∈ labels ∧ extract_drug_id (Link row) = Ok id ∧
          Dict.get (drug_links cat) id = Some (Link row) ∧
          Dict.get (drug_appid_links cat) id = Some (Application_Number row)).
Proof.
  intros Hcat. destruct (load_rows_get _ _ _ id Hcat) as [Hg1 Hg2].
  cbn [empty_catalog drug_links drug_appid_links Dict.get] in Hg1, Hg2.
  assert (id ∈ Dict.keys (drug_links cat) →
          ∃ row, last (filter (yields id) labels) = Some row) as Hlast.
  { intros Hin. destruct (last (filter (yields id) labels)) as [row|];
      [by exists row|]. by apply dict_get_None in Hg1. }
  assert (∀ row, last (filter (yields id) labels) = Some row →
                 row ∈ labels ∧ yields id row) as Hrow.
  { intros row (l' & Hl')%last_Some.
    assert (row ∈ filter (yields id) labels) as Hin.
    { rewrite Hl'. apply elem_of_app. right. left. }
    apply list_elem_of_filter in Hin as [? ?]. done. }
  split; [split|].
  - intros (row & Hr)%Hlast. exists row. by apply Hrow.
  - intros (row & Hin & Hy).
    destruct (last (filter (yields id) labels)) as [r|] eqn:Hl.
    + destruct (Dict.get (drug_links cat) id) eqn:Hget; [|done].
      destruct (decide (id ∈ Dict.keys (drug_links cat))) as [|Hn]; [done|].
      apply dict_get_None in Hn. congruence.
    + apply last_None in Hl.
      assert (row ∈ filter (yields id) labels) as Hf
        by (by apply list_elem_of_filter).
      rewrite Hl in Hf. by apply elem_of_nil in Hf.
  - intros (row & Hr)%Hlast. rewrite Hr in Hg1, Hg2.
    destruct (Hrow row Hr) as [Hin Hy]. by exists row.
Qed.

Lemma load_catalog_rowwise_witness :
  ∃ row, row ∈ Demo.labels ∧ extract_drug_id (Link row) = Ok 42 ∧
         Dict.get (drug_links Demo.cat) 42 = Some (Link row) ∧
         Dict.get (drug_appid_links Demo.cat) 42 = Some (Application_Number row).
Proof.
  apply (proj2 (load_catalog_rowwise Demo.labels Demo.cat 42
                  ltac:(vm_compute; reflexivity))).
  vm_compute. left.
Defined.

(** ** The size of the identifiers *)

Lemma extract_drug_id_bounded link n :
  extract_drug_id link = Ok n → Z.abs n < 10 ^ Py.int_max_str_digits.
Proof.
  rewrite extract_drug_id_unfold.
  destruct (Py.split "&" link !! 1%nat) as [seg|]; [|done].
  destruct (Py.split "=" seg !! 1%nat) as [val|]; [|done].
  apply int_bounded.
Qed.

(** The keys of a loaded catalogue have no more digits than the
    interpreter prints. *)
Lemma load_catalog_keys_bounded labels cat :
  load_catalog labels = Ok cat →
  Forall (λ id, Z.abs id < 10 ^ Py.int_max_str_digits)
         (Dict.keys (drug_links cat)).
Proof.
  intros Hcat. unfold Dict.keys. apply Forall_fmap.
  assert (Forall (λ it, extract_drug_id it.2 = Ok it.1) (drug_links cat))
    as Hurls by by apply (load_rows_urls empty_catalog labels cat).
  eapply Forall_impl; [exact Hurls|].
  intros it Hit. simpl in *. by eapply extract_drug_id_bounded.
Qed.

(** X18. Every identifier of a loaded catalogue has at most 4300 digits,
    the most the interpreter prints, and [int] reads it back from the text
    that [str] makes of it, the stem of its file name. *)
Theorem catalog_keys_printable (labels : list Row) (cat : catalog) (id : Z) :
  load_catalog labels = Ok cat → id ∈ Dict.keys (drug_links cat) →
  Z.abs id < 10 ^ 4300 ∧ Py.int (Py.str id) = Ok id.
Proof.
  intros Hcat Hid.
  pose proof (load_catalog_keys_bounded labels cat Hcat) as Hall.
  rewrite Forall_forall in Hall. specialize (Hall id Hid).
  split; [exact Hall|by apply int_str].
Qed.

Lemma catalog_keys_printable_witness :
  Z.abs 42 < 10 ^ 4300 ∧ Py.int (Py.str 42) = Ok 42.
Proof.
  apply (catalog_keys_printable Demo.labels Demo.cat 42).
  - vm_compute. reflexivity.
  - apply list_elem_of_here.
Defined.
